(** * API Misery Index: a shallow embedding of [api_misery_index.py]

    The class [APIMiseryIndex] keeps two Python lists ([responses] and
    [errors]) and a label, and scores them with [calculate_misery].  The
    score is built from [json.dumps] of the last one or two payloads, so
    the development starts with a model of the JSON encoder (default
    options: [ensure_ascii=True], [allow_nan=True], separators [", "] and
    [": "], optional [sort_keys]; the three exceptions it raises, in the
    order in which it meets them), then the class, with the score as a
    binary64 float, then the properties. *)

From Stdlib Require Import ZArith NArith List String Ascii Bool Lia.
From Stdlib Require Import Permutation Sorted DecimalString.
From Stdlib Require Import Floats.PrimFloat.
Import ListNotations.
Open Scope Z_scope.

(** ** Python strings

    A Python [str] is a sequence of code points.  [lit] reads a literal. *)

Definition pystr := list N.

Definition lit (s : string) : pystr :=
  map N_of_ascii (list_ascii_of_string s).

Definition pystr_eq_dec : forall a b : pystr, {a = b} + {a <> b} :=
  list_eq_dec N.eq_dec.

(** [s.count(c)] for a one-character [c]. *)
Fixpoint str_count (c : N) (s : pystr) : Z :=
  match s with
  | [] => 0
  | x :: s' => (if N.eqb x c then 1 else 0) + str_count c s'
  end.

(** [sep.join(chunks)]. *)
Fixpoint join (sep : pystr) (chunks : list pystr) : pystr :=
  match chunks with
  | [] => []
  | [c] => c
  | c :: rest => c ++ sep ++ join sep rest
  end.

(** [a < b] on [str]: lexicographic on code points, a proper prefix first. *)
Fixpoint str_ltb (a b : pystr) : bool :=
  match a, b with
  | [], [] => false
  | [], _ :: _ => true
  | _ :: _, [] => false
  | x :: a', y :: b' =>
      if N.ltb x y then true
      else if N.eqb x y then str_ltb a' b'
      else false
  end.

(** ** Exceptions

    [result] is the outcome of a Python expression that may raise.  The
    encoder raises [TypeError] (an object or a key it has no rule for, keys
    that do not compare), [ValueError] (an int with too many digits, a
    circular reference) and [RecursionError] (containers nested too
    deep); an index out of range raises [IndexError]. *)

Inductive exn := TypeError | ValueError | RecursionError | IndexError.

Inductive result (A : Type) :=
| Ok (a : A)
| Raise (e : exn).
Arguments Ok {A} a.
Arguments Raise {A} e.

Class Monad (m : Type -> Type) := {
  ret : forall {A}, A -> m A;
  bind : forall {A B}, m A -> (A -> m B) -> m B
}.

Notation "x <- c ;; k" := (bind c (fun x => k))
  (at level 61, c at next level, right associativity).

#[export] Instance result_monad : Monad result := {
  ret := fun A a => Ok a;
  bind := fun A B c k => match c with Ok a => k a | Raise e => Raise e end
}.

Section MapM.
Context {A B : Type} (f : A -> result B).

(** A list comprehension whose body may raise: left to right, the first
    exception wins. *)
Fixpoint mapM (l : list A) : result (list B) :=
  match l with
  | [] => Ok []
  | x :: l' =>
      match f x with
      | Ok y => match mapM l' with
                | Ok ys => Ok (y :: ys)
                | Raise e => Raise e
                end
      | Raise e => Raise e
      end
  end.
End MapM.

(** [l[i]] for [i >= 0]. *)
Definition getitem {A} (l : list A) (i : nat) : result A :=
  match nth_error l i with
  | Some x => Ok x
  | None => Raise IndexError
  end.

(** [l[-1]]. *)
Definition getlast {A} (l : list A) : result A :=
  match rev l with
  | x :: _ => Ok x
  | [] => Raise IndexError
  end.

(** [l[-2:]]: the last two items, or the whole list when it is shorter. *)
Definition last_two_slice {A} (l : list A) : list A :=
  skipn (List.length l - 2) l.

(** ** The interpreter

    Two settings of the interpreter decide what [json.dumps] accepts: the
    cap on the decimal digits of an int that is turned into text
    ([sys.get_int_max_str_digits()], 0 for no cap), and how many containers
    the encoder can enter one inside the other before the recursion limit
    is hit.  Both are parameters; [python_defaults] has the cap of
    CPython 3.11 and a depth in the range of its default recursion limit. *)

Class interpreter := {
  int_max_str_digits : N;
  recursion_depth : nat
}.

#[export] Instance python_defaults : interpreter := {|
  int_max_str_digits := 4300;
  recursion_depth := 990
|}.

(** ** JSON text of scalars *)

Definition hexdigit (d : N) : N :=
  (if d <? 10 then 48 + d else 87 + d)%N.

(** ['{0:04x}'.format(n)], used by the encoder only for [n < 0x10000]. *)
Definition hex4 (n : N) : pystr :=
  [ hexdigit ((n / 4096) mod 16)%N; hexdigit ((n / 256) mod 16)%N;
    hexdigit ((n / 16) mod 16)%N; hexdigit (n mod 16)%N ].

(** The replacement of one character in [py_encode_basestring_ascii]:
    the regular expression matches a backslash, a double quote or anything
    outside [' '..'~']; [ESCAPE_DCT] has the short escapes, the rest is
    [\uXXXX], with a surrogate pair above the basic plane. *)
Definition escape_char (c : N) : pystr :=
  (if c =? 92 then [92; 92]            (* backslash *)
   else if c =? 34 then [92; 34]       (* double quote *)
   else if c =? 8 then [92; 98]        (* backspace: b *)
   else if c =? 12 then [92; 102]      (* form feed: f *)
   else if c =? 10 then [92; 110]      (* newline: n *)
   else if c =? 13 then [92; 114]      (* carriage return: r *)
   else if c =? 9 then [92; 116]       (* tab: t *)
   else if (32 <=? c) && (c <=? 126) then [c]
   else if c <? 65536 then [92; 117] ++ hex4 c
   else
     let n := c - 65536 in
     let s1 := N.lor 55296 (N.land (N.shiftr n 10) 1023) in
     let s2 := N.lor 56320 (N.land n 1023) in
     [92; 117] ++ hex4 s1 ++ [92; 117] ++ hex4 s2)%N.

Definition encode_basestring_ascii (s : pystr) : pystr :=
  [34%N] ++ flat_map escape_char s ++ [34%N].

(** The decimal digits of an int, with a leading minus sign. *)
Definition int_digits (n : Z) : pystr :=
  lit (NilZero.string_of_int (Z.to_int n)).

Definition count_digits (n : Z) : N :=
  N.of_nat (List.length (int_digits (Z.abs n))).

(** [int.__repr__]: the digits, or [ValueError] when there are more of
    them than the cap allows. *)
Definition int_repr {py : interpreter} (n : Z) : result pystr :=
  if (0 <? int_max_str_digits)%N && (int_max_str_digits <? count_digits n)%N
  then Raise ValueError
  else Ok (int_digits n).

(** A float is carried as what the encoder prints for it: the three special
    values, or the text of [float.__repr__] for a finite one (the binary64
    value and the shortest-digits algorithm are not modelled). *)
Inductive pyfloat :=
| FNan
| FInf
| FNegInf
| FFinite (repr : pystr).

Definition floatstr (f : pyfloat) : pystr :=
  match f with
  | FNan => lit "NaN"
  | FInf => lit "Infinity"
  | FNegInf => lit "-Infinity"
  | FFinite r => r
  end.

(** ** Python values

    The payload is [Any]: the JSON-like values, [PObj] for every object
    the encoder has no rule for (a set, bytes, a class instance ...), and
    [PCycle] for a reference, inside a list or dict, to a list or dict that
    encloses it (a container that contains itself).
    [PList] also stands for tuples, which are encoded alike.  A [dict] is
    its items in insertion order; its keys are [str], [int], [bool], [None]
    or, as [KObj], of a type the encoder refuses (float keys are outside
    the model). *)

Inductive pykey :=
| KStr (s : pystr)
| KInt (n : Z)
| KBool (b : bool)
| KNone
| KObj (id : N).

#[warnings="-register-all"]
Inductive pyval :=
| PNone
| PBool (b : bool)
| PInt (n : Z)
| PFloat (f : pyfloat)
| PStr (s : pystr)
| PList (items : list pyval)
| PDict (items : list (pykey * pyval))
| PCycle
| PObj (id : N).

(** Induction on values, through the nested lists. *)

Section PyvalInduction.
Variable P : pyval -> Prop.
Hypothesis HNone : P PNone.
Hypothesis HBool : forall b, P (PBool b).
Hypothesis HInt : forall n, P (PInt n).
Hypothesis HFloat : forall f, P (PFloat f).
Hypothesis HStr : forall s, P (PStr s).
Hypothesis HList : forall l, Forall P l -> P (PList l).
Hypothesis HDict :
  forall d, Forall (fun kv => P (snd kv)) d -> P (PDict d).
Hypothesis HCycle : P PCycle.
Hypothesis HObj : forall id, P (PObj id).

Fixpoint pyval_nested_ind (v : pyval) : P v :=
  match v with
  | PNone => HNone
  | PBool b => HBool b
  | PInt n => HInt n
  | PFloat f => HFloat f
  | PStr s => HStr s
  | PList l =>
      HList l
        ((fix go (l : list pyval) : Forall P l :=
            match l with
            | [] => Forall_nil _
            | x :: l' => Forall_cons x (pyval_nested_ind x) (go l')
            end) l)
  | PDict d =>
      HDict d
        ((fix go (d : list (pykey * pyval))
            : Forall (fun kv => P (snd kv)) d :=
            match d with
            | [] => Forall_nil _
            | kv :: d' =>
                Forall_cons kv (pyval_nested_ind (snd kv)) (go d')
            end) d)
  | PCycle => HCycle
  | PObj id => HObj id
  end.
End PyvalInduction.

(** The value an [int] or [bool] key compares (and hashes) as. *)
Definition key_num (k : pykey) : option Z :=
  match k with
  | KInt n => Some n
  | KBool b => Some (Z.b2z b)
  | _ => None
  end.

(** [a < b] on dict keys: defined within [str] and within the numbers, a
    [TypeError] otherwise. *)
Definition key_lt (a b : pykey) : result bool :=
  match a, b with
  | KStr s, KStr t => Ok (str_ltb s t)
  | _, _ =>
      match key_num a, key_num b with
      | Some x, Some y => Ok (x <? y)
      | _, _ => Raise TypeError
      end
  end.

Section Sorted.
Context {V : Type}.

(** [sorted(dct.items())].  The keys of a dict are pairwise distinct, so
    the comparison of two [(key, value)] tuples is decided by the keys.
    A stable insertion sort that only asks [<], as [list.sort] does. *)
Fixpoint insert_item (x : pykey * V) (l : list (pykey * V))
  : result (list (pykey * V)) :=
  match l with
  | [] => Ok [x]
  | y :: l' =>
      match key_lt (fst y) (fst x) with
      | Ok true =>
          match insert_item x l' with
          | Ok r => Ok (y :: r)
          | Raise e => Raise e
          end
      | Ok false => Ok (x :: y :: l')
      | Raise e => Raise e
      end
  end.

Fixpoint sorted (l : list (pykey * V)) : result (list (pykey * V)) :=
  match l with
  | [] => Ok []
  | x :: l' =>
      match sorted l' with
      | Ok s => insert_item x s
      | Raise e => Raise e
      end
  end.
End Sorted.

(** ** The encoder

    [encode] follows the C encoder that [json.dumps] runs: a list or a dict
    is entered only if the recursion limit allows it; the items of a dict
    are sorted first when [sort_keys] is set, and then each key is turned
    into text before its value is encoded; the first exception met is the
    one raised. *)

Section Encoder.
Context {py : interpreter}.
Variables item_separator key_separator : pystr.
Variable sort_keys : bool.

(** The text of a dict key before quoting. *)
Definition key_text (k : pykey) : result pystr :=
  match k with
  | KStr s => Ok s
  | KBool true => Ok (lit "true")
  | KBool false => Ok (lit "false")
  | KNone => Ok (lit "null")
  | KInt n => int_repr n
  | KObj _ => Raise TypeError
  end.

(** One item of a dict: the key, then the value. *)
Definition encode_item (enc : pyval -> result pystr)
    (kv : pykey * pyval) : result pystr :=
  k <- key_text (fst kv) ;;
  v <- enc (snd kv) ;;
  Ok (encode_basestring_ascii k ++ key_separator ++ v).

(** [depth] is the number of containers that can still be entered. *)
Fixpoint encode (depth : nat) (o : pyval) : result pystr :=
  match o with
  | PNone => Ok (lit "null")
  | PBool true => Ok (lit "true")
  | PBool false => Ok (lit "false")
  | PStr s => Ok (encode_basestring_ascii s)
  | PInt n => int_repr n
  | PFloat f => Ok (floatstr f)
  | PList l =>
      match depth with
      | O => Raise RecursionError
      | S depth' =>
          chunks <- mapM (encode depth') l ;;
          Ok (lit "[" ++ join item_separator chunks ++ lit "]")
      end
  | PDict d =>
      match depth with
      | O => Raise RecursionError
      | S depth' =>
          items <- (if sort_keys then sorted d else Ok d) ;;
          chunks <- mapM (encode_item (encode depth')) items ;;
          Ok (lit "{" ++ join item_separator chunks ++ lit "}")
      end
  | PCycle =>
      match depth with
      | O => Raise RecursionError
      | S _ => Raise ValueError
      end
  | PObj _ => Raise TypeError
  end.
End Encoder.

(** [json.dumps(obj, sort_keys=...)] with the default separators. *)
Definition json_dumps {py : interpreter} (sort_keys : bool) (obj : pyval)
  : result pystr :=
  encode (lit ", ") (lit ": ") sort_keys recursion_depth obj.

(** The same with [separators=(',', ':')], the most compact form. *)
Definition json_dumps_compact {py : interpreter} (sort_keys : bool)
    (obj : pyval) : result pystr :=
  encode (lit ",") (lit ":") sort_keys recursion_depth obj.

(** ** The class [APIMiseryIndex]

    The two kinds of record are the dict literals of [log_response] and
    [log_error]; [timestamp] is [datetime.now().isoformat()], which the
    model takes from the caller as [now]. *)

Record ResponseRecord := {
  timestamp : pystr;
  data : pyval
}.

Record ErrorRecord := {
  error_timestamp : pystr;
  message : pyval
}.

Record APIMiseryIndex := {
  api_name : pystr;
  responses : list ResponseRecord;
  errors : list ErrorRecord
}.

(** A method: it may raise, and it may change [self]. *)
Definition method (A : Type) : Type :=
  APIMiseryIndex -> result A * APIMiseryIndex.

#[export] Instance method_monad : Monad method := {
  ret := fun A a self => (Ok a, self);
  bind := fun A B c k self =>
    match c self with
    | (Ok a, self') => k a self'
    | (Raise e, self') => (Raise e, self')
    end
}.

Definition get_self : method APIMiseryIndex :=
  fun self => (Ok self, self).

Definition set_responses (l : list ResponseRecord) : method unit :=
  fun self =>
    (Ok tt, {| api_name := api_name self; responses := l;
               errors := errors self |}).

Definition set_errors (l : list ErrorRecord) : method unit :=
  fun self =>
    (Ok tt, {| api_name := api_name self; responses := responses self;
               errors := l |}).

Definition lift {A} (r : result A) : method A :=
  fun self => (r, self).

Definition is_empty {A} (l : list A) : bool :=
  match l with [] => true | _ => false end.

Definition default_api_name : pystr := lit "Unknown API".

(** [__init__] *)
Definition init (api_name : pystr) : APIMiseryIndex :=
  {| api_name := api_name; responses := []; errors := [] |}.

Definition log_response (now : pystr) (response_data : pyval)
  : method unit :=
  self <- get_self ;;
  set_responses
    (responses self ++ [ {| timestamp := now; data := response_data |} ]).

Definition log_error (now : pystr) (error_msg : pyval) : method unit :=
  self <- get_self ;;
  set_errors
    (errors self ++ [ {| error_timestamp := now; message := error_msg |} ]).

(** A sequence of calls of the two logging methods. *)
Inductive call :=
| LogResponse (now : pystr) (response_data : pyval)
| LogError (now : pystr) (error_msg : pyval).

Definition perform (c : call) : method unit :=
  match c with
  | LogResponse now response_data => log_response now response_data
  | LogError now error_msg => log_error now error_msg
  end.

Fixpoint perform_all (calls : list call) : method unit :=
  match calls with
  | [] => ret tt
  | c :: calls' => _ <- perform c ;; perform_all calls'
  end.

(** ** Floats

    [misery] is a Python float, and the amounts added to it are ints.
    [float_of_Z] is the conversion the interpreter applies to the int
    operand of a mixed addition (exact below 2^53), [float_min a b] is
    [min(a, b)]. *)

Fixpoint float_of_pos (p : positive) : float :=
  match p with
  | xH => 1%float
  | xO p' => (2 * float_of_pos p')%float
  | xI p' => (2 * float_of_pos p' + 1)%float
  end.

Definition float_of_Z (z : Z) : float :=
  match z with
  | Z0 => 0%float
  | Zpos p => float_of_pos p
  | Zneg p => (- float_of_pos p)%float
  end.

Definition float_min (a b : float) : float :=
  if PrimFloat.ltb b a then b else a.

(** The three amounts [calculate_misery] adds to [misery], in the order of
    its numbered blocks; each is a Python int. *)

(** 1. Inconsistency penalty *)
Definition inconsistency_penalty {py : interpreter}
    (responses : list ResponseRecord) : result Z :=
  if (1 <? List.length responses)%nat then
    last_two <- mapM (fun r => json_dumps true (data r))
                     (last_two_slice responses) ;;
    a <- getitem last_two 0 ;;
    b <- getitem last_two 1 ;;
    if pystr_eq_dec a b then Ok 0 else Ok 40
  else Ok 0.

(** 2. Error penalty *)
Definition error_penalty (errors : list ErrorRecord) : Z :=
  Z.min 30 (Z.of_nat (List.length errors) * 10).

(** 3. Schema complexity penalty; 123 and 91 are the opening brace and
    the opening bracket. *)
Definition complexity_penalty {py : interpreter}
    (responses : list ResponseRecord) : result Z :=
  if is_empty responses then Ok 0
  else
    r <- getlast responses ;;
    sample <- json_dumps false (data r) ;;
    let nesting := str_count 123 sample + str_count 91 sample in
    Ok (Z.min 30 (nesting * 2)).

(** The first block adds 40 or leaves [misery] as it is; adding the 0 of
    [inconsistency_penalty] to the float is the same. *)
Definition calculate_misery {py : interpreter} : method float :=
  self <- get_self ;;
  if is_empty (responses self) then ret 0%float
  else
    let misery := 0%float in
    p <- lift (inconsistency_penalty (responses self)) ;;
    let misery := (misery + float_of_Z p)%float in
    let misery := (misery + float_of_Z (error_penalty (errors self)))%float in
    p <- lift (complexity_penalty (responses self)) ;;
    let misery := (misery + float_of_Z p)%float in
    ret (float_min 100%float misery).

Definition stable_msg : pystr :=
  lit ": Suspiciously stable. Check if it's actually running.".
Definition mild_msg : pystr :=
  lit ": Mild annoyance. You'll only cry a little.".
Definition suffering_msg : pystr :=
  lit ": Significant suffering. Time for a strong drink.".
Definition critical_msg : pystr :=
  lit ": CRITICAL. Abandon all hope ye who integrate here.".

Definition get_diagnosis {py : interpreter} : method pystr :=
  score <- calculate_misery ;;
  self <- get_self ;;
  if (score <? 20)%float then ret (api_name self ++ stable_msg)
  else if (score <? 50)%float then ret (api_name self ++ mild_msg)
  else if (score <? 80)%float then ret (api_name self ++ suffering_msg)
  else ret (api_name self ++ critical_msg).

(** The run of the [__main__] block, up to the two prints. *)
Definition example_data_1 : pyval :=
  PDict [(KStr (lit "status"), PStr (lit "ok"));
         (KStr (lit "data"), PDict [(KStr (lit "id"), PInt 1)])].

Definition example_data_2 : pyval :=
  PDict [(KStr (lit "status"), PStr (lit "success"));
         (KStr (lit "result"), PDict [(KStr (lit "user_id"), PInt 1)])].

Definition example_run {py : interpreter} : method (float * pystr) :=
  _ <- log_response (lit "2024-01-01T00:00:00.000001") example_data_1 ;;
  _ <- log_response (lit "2024-01-01T00:00:00.000002") example_data_2 ;;
  _ <- log_error (lit "2024-01-01T00:00:00.000003")
         (PStr (lit "404: Endpoint moved to /v2 (but we're on v3)")) ;;
  score <- calculate_misery ;;
  diagnosis <- get_diagnosis ;;
  ret (score, diagnosis).

(** The compact form of the second payload. *)
Definition example_compact : pystr :=
  Eval vm_compute in
    match json_dumps_compact false example_data_2 with
    | Ok s => s
    | Raise _ => []
    end.

Definition example_state : APIMiseryIndex :=
  snd (example_run (init (lit "ExampleAPI"))).

(** Two payloads with the same items in the other order, a tracker that
    logged both, and their common canonical form. *)
Definition reorder_a : pyval :=
  PDict [(KStr (lit "a"), PInt 1); (KStr (lit "b"), PList [PInt 2])].

Definition reorder_b : pyval :=
  PDict [(KStr (lit "b"), PList [PInt 2]); (KStr (lit "a"), PInt 1)].

Definition reorder_state : APIMiseryIndex :=
  snd ((_ <- log_response (lit "t1") reorder_a ;;
        log_response (lit "t2") reorder_b) (init default_api_name)).

Definition reorder_canon : pystr :=
  Eval vm_compute in
    match json_dumps true reorder_a with Ok s => s | Raise _ => [] end.

(** A tracker whose only response cannot be serialized, one that scores 20
    and one that scores 80. *)
Definition broken_state : APIMiseryIndex :=
  snd (log_response (lit "t1") (PObj 0) (init default_api_name)).

Definition score20_state : APIMiseryIndex :=
  snd ((_ <- log_response (lit "t1") (PInt 1) ;;
        _ <- log_error (lit "t2") (PStr (lit "timeout")) ;;
        log_error (lit "t3") (PStr (lit "timeout"))) (init default_api_name)).

Definition score80_state : APIMiseryIndex :=
  snd ((_ <- log_response (lit "t1") (PInt 1) ;;
        _ <- log_response (lit "t2")
               (PList [PList []; PList []; PList []; PList []]) ;;
        _ <- log_error (lit "t3") (PStr (lit "500")) ;;
        _ <- log_error (lit "t4") (PStr (lit "500")) ;;
        log_error (lit "t5") (PStr (lit "500"))) (init default_api_name)).

(** ** Vocabulary of the properties *)

Definition succeeds {A} (r : result A) : bool :=
  match r with Ok _ => true | Raise _ => false end.

(** A payload is serializable when its canonical form exists. *)
Definition serializable {py : interpreter} (v : pyval) : Prop :=
  succeeds (json_dumps true v) = true.

(** The records a sequence of calls leaves in the two lists. *)
Definition logged_responses (calls : list call) : list ResponseRecord :=
  flat_map (fun c => match c with
                     | LogResponse now d => [ {| timestamp := now; data := d |} ]
                     | LogError _ _ => []
                     end) calls.

Definition logged_errors (calls : list call) : list ErrorRecord :=
  flat_map (fun c => match c with
                     | LogResponse _ _ => []
                     | LogError now m =>
                         [ {| error_timestamp := now; message := m |} ]
                     end) calls.

(** The score as the integer it is: the sum of the three amounts, at most
    100. *)
Definition misery_points {py : interpreter} (self : APIMiseryIndex)
  : result Z :=
  if is_empty (responses self) then Ok 0
  else
    p1 <- inconsistency_penalty (responses self) ;;
    p3 <- complexity_penalty (responses self) ;;
    Ok (Z.min 100 (p1 + error_penalty (errors self) + p3)).

(** Every key of every dict inside [v] is a [str], as in parsed JSON. *)
Fixpoint str_keys (v : pyval) : bool :=
  match v with
  | PList l => forallb str_keys l
  | PDict d =>
      forallb (fun kv => match fst kv with KStr _ => true | _ => false end
                         && str_keys (snd kv)) d
  | _ => true
  end.

(** A literal in which the apostrophe stands for the double quote. *)
Definition dq (s : string) : pystr :=
  map (fun c => if (c =? 39)%N then 34%N else c) (lit s).

(** A dict that has a plain form and no canonical one. *)
Definition mixed_keys : pyval :=
  PDict [(KInt 1, PStr (lit "a")); (KStr (lit "b"), PInt 2)].

(** The exceptions of the encoder. *)
Definition encoder_exn (e : exn) : Prop :=
  e = TypeError \/ e = ValueError \/ e = RecursionError.

(** Two items with the same key and related values. *)
Definition item_rel {V W} (R : V -> W -> Prop)
    (x : pykey * V) (y : pykey * W) : Prop :=
  fst x = fst y /\ R (snd x) (snd y).

(** Opening braces and brackets of a text. *)
Definition braces (s : pystr) : Z :=
  str_count 123 s + str_count 91 s.

Definition key_braces (k : pykey) : Z :=
  match k with KStr s => braces s | _ => 0 end.

Definition sumZ {A} (f : A -> Z) (l : list A) : Z :=
  fold_right (fun x acc => f x + acc) 0 l.

(** What the count of [complexity_penalty] is on the value itself: one for
    every list and dict, plus the braces and brackets that occur inside
    strings, keys and float texts. *)
Fixpoint nesting_of (v : pyval) : Z :=
  match v with
  | PStr s => braces s
  | PFloat f => braces (floatstr f)
  | PList l => 1 + fold_right (fun x acc => nesting_of x + acc) 0 l
  | PDict d =>
      1 + fold_right
            (fun kv acc => key_braces (fst kv) + nesting_of (snd kv) + acc)
            0 d
  | _ => 0
  end.

(** Two keys are the same key of a dict when they are equal as Python
    objects: [True] is [1] and [False] is [0]. *)
Definition key_ident (k : pykey) : pykey :=
  match k with
  | KBool b => KInt (Z.b2z b)
  | _ => k
  end.

Definition pykey_eq_dec : forall a b : pykey, {a = b} + {a <> b}.
Proof.
  decide equality;
    [ apply pystr_eq_dec | apply Z.eq_dec | apply bool_dec | apply N.eq_dec ].
Defined.

Fixpoint nodupb (l : list pykey) : bool :=
  match l with
  | [] => true
  | k :: l' =>
      negb (existsb (fun k' => if pykey_eq_dec k k' then true else false) l')
      && nodupb l'
  end.

(** Every dict inside [v] has pairwise distinct keys, as every Python dict
    has. *)
Fixpoint distinct_keys (v : pyval) : bool :=
  match v with
  | PList l => forallb distinct_keys l
  | PDict d =>
      nodupb (map (fun kv => key_ident (fst kv)) d)
      && forallb (fun kv => distinct_keys (snd kv)) d
  | _ => true
  end.

(** The same value up to the insertion order of the items of its dicts. *)
#[warnings="-register-all"]
Inductive key_reorder : pyval -> pyval -> Prop :=
| kr_same v : key_reorder v v
| kr_list l1 l2 :
    Forall2 key_reorder l1 l2 -> key_reorder (PList l1) (PList l2)
| kr_dict d1 d' d2 :
    Permutation d1 d' ->
    Forall2 (fun x y => fst x = fst y /\ key_reorder (snd x) (snd y)) d' d2 ->
    key_reorder (PDict d1) (PDict d2).

(** The kinds of key that compare with [<], and the sort with a total
    comparison, to which [sorted] is related below. *)
Inductive key_kind := StrKey | NumKey.

Definition kind_of (k : pykey) : option key_kind :=
  match k with
  | KStr _ => Some StrKey
  | KInt _ | KBool _ => Some NumKey
  | _ => None
  end.

Definition key_ltb (a b : pykey) : bool :=
  match key_lt a b with Ok r => r | Raise _ => false end.

Section PureSort.
Context {V : Type}.

Definition has_kind (c : key_kind) (x : pykey * V) : Prop :=
  kind_of (fst x) = Some c.
Definition item_lt (x y : pykey * V) : Prop :=
  key_ltb (fst x) (fst y) = true.
Definition ident_of (x : pykey * V) : pykey := key_ident (fst x).

Fixpoint insert_pure (x : pykey * V) (l : list (pykey * V))
  : list (pykey * V) :=
  match l with
  | [] => [x]
  | y :: l' =>
      if key_ltb (fst y) (fst x) then y :: insert_pure x l'
      else x :: y :: l'
  end.

Fixpoint isort (l : list (pykey * V)) : list (pykey * V) :=
  match l with
  | [] => []
  | x :: l' => insert_pure x (isort l')
  end.
End PureSort.

(** ** Trackers built for the further properties *)

(** A payload whose plain form has [j] opening brackets and no brace: a
    string of brackets, which asks nothing of the recursion limit. *)
Definition flat_payload (j : nat) : pyval :=
  match j with
  | O => PInt 0
  | S _ => PStr (repeat 91%N j)
  end.

(** Payloads that the encoder refuses with each of its exceptions: an int
    of 4301 digits, a dict that contains itself, lists nested 2000 deep,
    and a list that holds the int before an object. *)
Definition huge_int : pyval := PInt (2 ^ 14285).

Definition self_containing : pyval := PDict [(KStr (lit "self"), PCycle)].

Definition deeply_nested : pyval :=
  Nat.iter 2000 (fun v => PList [v]) (PList []).

Definition int_then_object : pyval := PList [huge_int; PObj 0].

(** A dict with two refused values under string keys, and the same items
    inserted the other way round. *)
Definition failing_items : pyval :=
  PDict [(KStr (lit "x"), PObj 0); (KStr (lit "y"), huge_int)].

Definition failing_items_reordered : pyval :=
  PDict [(KStr (lit "y"), huge_int); (KStr (lit "x"), PObj 0)].

(** Values that [json.dumps] turns into text under every setting of the
    interpreter: no container, and of the ints those of one digit. *)
Definition plain_scalar (v : pyval) : bool :=
  match v with
  | PNone | PBool _ | PFloat _ | PStr _ => true
  | PInt n => (count_digits n =? 1)%N
  | _ => false
  end.

(** Calls after which the score is [2 * k], for [k] up to 50: a first
    response that differs from the second when 40 is needed, the response
    that sets the third term, then up to three errors. *)
Definition calls_scoring (k : nat) : list call :=
  let '(differ, n_err, j) :=
    if (k <=? 15)%nat then (false, 0%nat, k)
    else if (k <=? 30)%nat then (false, 3%nat, (k - 15)%nat)
    else if (k <=? 34)%nat then (true, 2%nat, (k - 30)%nat)
    else (true, 3%nat, (k - 35)%nat) in
  (if differ then [LogResponse (lit "t0") (PInt 1)] else [])
  ++ [LogResponse (lit "t1") (flat_payload j)]
  ++ repeat (LogError (lit "t2") PNone) n_err.

(** A tracker with one response and two errors, and one with five. *)
Definition two_errors_state : APIMiseryIndex :=
  snd (perform_all [LogResponse (lit "t1") example_data_1;
                    LogError (lit "t2") (PStr (lit "timeout"));
                    LogError (lit "t3") (PStr (lit "timeout"))]
         (init default_api_name)).

(** [example_data_1] with its two items the other way round. *)
Definition example_data_1_reordered : pyval :=
  PDict [(KStr (lit "data"), PDict [(KStr (lit "id"), PInt 1)]);
         (KStr (lit "status"), PStr (lit "ok"))].

(** * Properties *)

(** ** Counting braces *)

Lemma str_count_app c a b :
  str_count c (a ++ b) = str_count c a + str_count c b.
Proof.
  induction a as [|x a IH]; simpl; [reflexivity | rewrite IH; lia].
Qed.

Lemma str_count_nonneg c s : 0 <= str_count c s.
Proof.
  induction s as [|x s IH]; simpl; [lia | destruct (N.eqb x c); lia].
Qed.

Lemma braces_app a b : braces (a ++ b) = braces a + braces b.
Proof. unfold braces. rewrite !str_count_app. lia. Qed.

Lemma braces_nonneg s : 0 <= braces s.
Proof.
  unfold braces.
  pose proof (str_count_nonneg 123 s). pose proof (str_count_nonneg 91 s).
  lia.
Qed.

Lemma braces_cons c s :
  braces (c :: s)
  = (if (c =? 123)%N then 1 else 0) + (if (c =? 91)%N then 1 else 0)
    + braces s.
Proof. unfold braces. simpl. lia. Qed.

Lemma braces_join sep chunks :
  braces sep = 0 ->
  braces (join sep chunks)
  = fold_right (fun c acc => braces c + acc) 0 chunks.
Proof.
  intros Hsep. induction chunks as [|c rest IH]; [reflexivity|].
  destruct rest as [|c' rest].
  - simpl. lia.
  - change (join sep (c :: c' :: rest))
      with (c ++ sep ++ join sep (c' :: rest)).
    rewrite !braces_app, IH, Hsep. simpl. lia.
Qed.

Lemma braces_hexdigit x : braces [hexdigit (x mod 16)%N] = 0.
Proof.
  assert (H : (x mod 16 < 16)%N) by (apply N.mod_lt; discriminate).
  rewrite braces_cons. unfold hexdigit.
  destruct (N.ltb_spec (x mod 16) 10);
    repeat match goal with
           | |- context [(?a =? ?b)%N] => destruct (N.eqb_spec a b)
           end; unfold braces; simpl; lia.
Qed.

Lemma braces_hex4 n : braces (hex4 n) = 0.
Proof.
  unfold hex4.
  change (braces ([hexdigit ((n / 4096) mod 16)%N]
                  ++ [hexdigit ((n / 256) mod 16)%N]
                  ++ [hexdigit ((n / 16) mod 16)%N]
                  ++ [hexdigit (n mod 16)%N]) = 0).
  rewrite !braces_app, !braces_hexdigit. reflexivity.
Qed.

(** Escaping neither adds nor removes a brace. *)
Lemma braces_escape_char c : braces (escape_char c) = braces [c].
Proof.
  unfold escape_char.
  repeat match goal with
         | |- context [if (c =? ?b)%N then _ else _] =>
             destruct (N.eqb_spec c b); [subst; reflexivity|]
         end.
  destruct ((32 <=? c)%N && (c <=? 126)%N) eqn:Hr; [reflexivity|].
  assert (Hc : braces [c] = 0).
  { rewrite braces_cons.
    destruct (N.eqb_spec c 123); [subst; discriminate|].
    destruct (N.eqb_spec c 91); [subst; discriminate|].
    reflexivity. }
  rewrite Hc.
  destruct (c <? 65536)%N;
    rewrite ?braces_app, ?braces_hex4; reflexivity.
Qed.

Lemma braces_escape s : braces (flat_map escape_char s) = braces s.
Proof.
  induction s as [|c s IH]; [reflexivity|].
  simpl. rewrite braces_app, braces_escape_char, IH.
  change (c :: s) with ([c] ++ s). rewrite braces_app. reflexivity.
Qed.

Lemma braces_basestring s : braces (encode_basestring_ascii s) = braces s.
Proof.
  unfold encode_basestring_ascii.
  rewrite !braces_app, braces_escape.
  change (braces [34%N]) with 0. lia.
Qed.

Lemma braces_uint d : braces (lit (NilEmpty.string_of_uint d)) = 0.
Proof.
  induction d; simpl; try reflexivity;
    unfold lit in *; simpl; rewrite braces_cons, IHd; reflexivity.
Qed.

Lemma braces_int_digits n : braces (int_digits n) = 0.
Proof.
  unfold int_digits, NilZero.string_of_int, NilZero.string_of_uint.
  destruct (Z.to_int n) as [d|d]; destruct d;
    try reflexivity;
    try (unfold lit; simpl; rewrite ?braces_cons;
         match goal with
         | |- context [braces (map N_of_ascii
                         (list_ascii_of_string
                            (NilEmpty.string_of_uint ?d)))] =>
             change (map N_of_ascii
                       (list_ascii_of_string (NilEmpty.string_of_uint d)))
               with (lit (NilEmpty.string_of_uint d));
             rewrite braces_uint
         end; reflexivity).
Qed.

Lemma int_repr_ok {py : interpreter} n t :
  int_repr n = Ok t -> t = int_digits n.
Proof.
  unfold int_repr.
  destruct ((0 <? int_max_str_digits)%N
            && (int_max_str_digits <? count_digits n)%N);
    [discriminate|]. congruence.
Qed.

Lemma int_repr_raise {py : interpreter} n e :
  int_repr n = Raise e -> e = ValueError.
Proof.
  unfold int_repr.
  destruct ((0 <? int_max_str_digits)%N
            && (int_max_str_digits <? count_digits n)%N);
    [congruence|discriminate].
Qed.

(** ** The order on keys *)

Lemma str_ltb_irrefl a : str_ltb a a = false.
Proof.
  induction a as [|x a IH]; simpl; [reflexivity|].
  rewrite N.ltb_irrefl, N.eqb_refl. exact IH.
Qed.

Lemma str_ltb_trans a b c :
  str_ltb a b = true -> str_ltb b c = true -> str_ltb a c = true.
Proof.
  revert b c. induction a as [|x a IH]; intros [|y b] [|z c]; simpl;
    try discriminate; try reflexivity.
  destruct (N.ltb_spec x y), (N.ltb_spec y z), (N.ltb_spec x z);
    try reflexivity; try lia;
    destruct (N.eqb_spec x y), (N.eqb_spec y z), (N.eqb_spec x z);
    try discriminate; try lia; intros; eauto.
Qed.

Lemma str_ltb_total a b :
  a <> b -> str_ltb a b = true \/ str_ltb b a = true.
Proof.
  revert b. induction a as [|x a IH]; intros [|y b] Hne; simpl; auto.
  destruct (N.ltb_spec x y); auto.
  destruct (N.ltb_spec y x); auto.
  assert (x = y) by lia. subst y.
  rewrite N.eqb_refl. apply IH. congruence.
Qed.

Lemma str_ltb_asym a b : str_ltb a b = true -> str_ltb b a = true -> False.
Proof.
  intros H1 H2. pose proof (str_ltb_trans _ _ _ H1 H2) as H.
  rewrite str_ltb_irrefl in H. discriminate.
Qed.

Lemma key_lt_raise a b e : key_lt a b = Raise e -> e = TypeError.
Proof.
  destruct a, b; simpl; intros H; try discriminate; congruence.
Qed.

Lemma key_lt_kind a b r :
  key_lt a b = Ok r ->
  exists c, kind_of a = Some c /\ kind_of b = Some c.
Proof.
  destruct a, b; simpl; intros H; try discriminate;
    solve [exists StrKey; auto | exists NumKey; auto].
Qed.

Lemma key_lt_same_kind c a b :
  kind_of a = Some c -> kind_of b = Some c ->
  key_lt a b = Ok (key_ltb a b).
Proof.
  unfold key_ltb.
  destruct a, b; simpl; intros Ha Hb; try discriminate; try reflexivity;
    congruence.
Qed.

Lemma key_ltb_trans a b c :
  key_ltb a b = true -> key_ltb b c = true -> key_ltb a c = true.
Proof.
  unfold key_ltb.
  destruct a, b, c; simpl; try discriminate;
    try apply str_ltb_trans;
    rewrite ?Z.ltb_lt; try lia;
    repeat match goal with b : bool |- _ => destruct b end;
    simpl; lia.
Qed.

Lemma key_ltb_asym a b : key_ltb a b = true -> key_ltb b a = true -> False.
Proof.
  unfold key_ltb.
  destruct a, b; simpl; try discriminate;
    try apply str_ltb_asym; rewrite ?Z.ltb_lt; lia.
Qed.

Lemma key_ltb_total c a b :
  kind_of a = Some c -> kind_of b = Some c ->
  key_ident a <> key_ident b ->
  key_ltb a b = true \/ key_ltb b a = true.
Proof.
  unfold key_ltb.
  destruct a, b; simpl; intros Ha Hb Hne; try discriminate;
    try congruence;
    try (apply str_ltb_total; congruence);
    rewrite !Z.ltb_lt;
    match goal with
    | |- ?x < ?y \/ _ =>
        destruct (Z.eq_dec x y) as [E|E]; [|lia];
        exfalso; apply Hne; f_equal; exact E
    end.
Qed.

(** ** [sorted]: what it raises, and its result *)

Section SortedFacts.
Context {V : Type}.
Implicit Types (x y : pykey * V) (l s r : list (pykey * V)).

Lemma insert_item_raise x l e : insert_item x l = Raise e -> e = TypeError.
Proof.
  induction l as [|y l IH]; simpl; [discriminate|].
  destruct (key_lt (fst y) (fst x)) as [[|]|e'] eqn:Hlt.
  - destruct (insert_item x l); [discriminate|].
    intros H. injection H as <-. now apply IH.
  - discriminate.
  - intros H. injection H as <-. eapply key_lt_raise; eauto.
Qed.

Lemma sorted_raise l e : sorted l = Raise e -> e = TypeError.
Proof.
  induction l as [|x l IH]; simpl; [discriminate|].
  destruct (sorted l) as [s|e'].
  - apply insert_item_raise.
  - intros H. injection H as <-. now apply IH.
Qed.

Lemma insert_item_perm x l r :
  insert_item x l = Ok r -> Permutation (x :: l) r.
Proof.
  revert r. induction l as [|y l IH]; simpl; intros r H.
  - injection H as <-. apply Permutation_refl.
  - destruct (key_lt (fst y) (fst x)) as [[|]|e']; try discriminate.
    + destruct (insert_item x l) as [r'|]; [|discriminate].
      injection H as <-.
      eapply perm_trans; [apply perm_swap|].
      apply perm_skip. now apply IH.
    + injection H as <-. apply Permutation_refl.
Qed.

Lemma sorted_perm l r : sorted l = Ok r -> Permutation l r.
Proof.
  revert r. induction l as [|x l IH]; simpl; intros r H.
  - injection H as <-. apply perm_nil.
  - destruct (sorted l) as [s|]; [|discriminate].
    eapply perm_trans; [apply perm_skip, IH; reflexivity|].
    now apply insert_item_perm.
Qed.

Lemma insert_pure_perm x l : Permutation (x :: l) (insert_pure x l).
Proof.
  induction l as [|y l IH]; simpl; [apply Permutation_refl|].
  destruct (key_ltb (fst y) (fst x)); [|apply Permutation_refl].
  eapply perm_trans; [apply perm_swap|]. now apply perm_skip.
Qed.

Lemma isort_perm l : Permutation l (isort l).
Proof.
  induction l as [|x l IH]; simpl; [apply perm_nil|].
  eapply perm_trans; [apply perm_skip, IH|apply insert_pure_perm].
Qed.

(** On keys of one kind no comparison raises. *)
Lemma insert_item_uniform c x l :
  has_kind c x -> Forall (has_kind c) l ->
  insert_item x l = Ok (insert_pure x l).
Proof.
  intros Hx Hl. induction Hl as [|y l Hy Hl IH]; simpl; [reflexivity|].
  rewrite (key_lt_same_kind c) by assumption.
  destruct (key_ltb (fst y) (fst x)); [|reflexivity].
  now rewrite IH.
Qed.

Lemma sorted_uniform c l :
  Forall (has_kind c) l -> sorted l = Ok (isort l).
Proof.
  induction 1 as [|x l Hx Hl IH]; simpl; [reflexivity|].
  rewrite IH. apply (insert_item_uniform c); [assumption|].
  eapply Permutation_Forall; [apply isort_perm|assumption].
Qed.

(** With two items or more, every item takes part in a comparison: the
    sort succeeds only on keys of one kind. *)
Lemma sorted_ok_kind l r :
  sorted l = Ok r -> (2 <= List.length l)%nat ->
  exists c, Forall (has_kind c) l.
Proof.
  revert r. induction l as [|x l IH]; simpl; intros r H Hlen; [lia|].
  destruct (sorted l) as [s|] eqn:Hs; [|discriminate].
  pose proof (sorted_perm _ _ Hs) as Hp.
  destruct s as [|z s].
  { apply Permutation_sym, Permutation_nil in Hp. subst l.
    simpl in Hlen. lia. }
  simpl in H.
  destruct (key_lt (fst z) (fst x)) as [b|] eqn:Hlt; [|discriminate].
  destruct (key_lt_kind _ _ _ Hlt) as (c & Hz & Hx).
  exists c. constructor; [exact Hx|].
  destruct l as [|y [|y' l]].
  - apply Permutation_nil in Hp. discriminate.
  - apply Permutation_length_1_inv in Hp. injection Hp as <- _.
    constructor; [exact Hz|constructor].
  - destruct (IH _ eq_refl) as (c' & Hall); [simpl; lia|].
    assert (Hz' : has_kind c' z).
    { eapply Forall_forall; [exact Hall|].
      eapply Permutation_in; [apply Permutation_sym, Hp|left; reflexivity]. }
    unfold has_kind in Hz'. rewrite Hz in Hz'. injection Hz' as <-.
    exact Hall.
Qed.

(** The pure sort yields the strictly increasing arrangement. *)
Lemma insert_pure_sorted c x l :
  has_kind c x -> Forall (has_kind c) l ->
  ~ In (ident_of x) (map ident_of l) ->
  StronglySorted item_lt l ->
  StronglySorted item_lt (insert_pure x l).
Proof.
  intros Hx Hl Hnin Hs. induction Hs as [|y l Hs IH Hy]; simpl.
  - constructor; constructor.
  - apply Forall_cons_iff in Hl as [Hky Hl].
    destruct (key_ltb (fst y) (fst x)) eqn:Hlt.
    + constructor.
      * apply IH; [assumption|]. intros Hin. apply Hnin. now right.
      * eapply Permutation_Forall; [apply insert_pure_perm|].
        constructor; assumption.
    + assert (Hxy : item_lt x y).
      { destruct (key_ltb_total c (fst x) (fst y)) as [H|H];
          try assumption.
        - intros E. apply Hnin. left. symmetry. exact E.
        - congruence. }
      constructor; [constructor; assumption|].
      constructor; [exact Hxy|].
      eapply Forall_impl; [|exact Hy].
      intros z Hz. eapply key_ltb_trans; eassumption.
Qed.

Lemma isort_sorted c l :
  Forall (has_kind c) l -> NoDup (map ident_of l) ->
  StronglySorted item_lt (isort l).
Proof.
  induction 1 as [|x l Hx Hl IH]; simpl; intros Hnd; [constructor|].
  inversion Hnd as [|? ? Hnin Hnd']; subst.
  apply (insert_pure_sorted c); try assumption.
  - eapply Permutation_Forall; [apply isort_perm|assumption].
  - intros Hin. apply Hnin.
    eapply Permutation_in; [|exact Hin].
    apply Permutation_map, Permutation_sym, isort_perm.
  - now apply IH.
Qed.

Lemma strongly_sorted_unique l1 l2 :
  StronglySorted item_lt l1 -> StronglySorted item_lt l2 ->
  Permutation l1 l2 -> l1 = l2.
Proof.
  intros H1. revert l2.
  induction H1 as [|a l1 H1 IH Ha]; intros l2 H2 Hp.
  - apply Permutation_nil in Hp. now subst.
  - destruct H2 as [|b l2 H2 Hb].
    + apply Permutation_sym, Permutation_nil in Hp. discriminate.
    + assert (Hab : a = b).
      { assert (Hina : In a (b :: l2))
          by (eapply Permutation_in; [exact Hp|left; reflexivity]).
        assert (Hinb : In b (a :: l1))
          by (eapply Permutation_in;
              [apply Permutation_sym, Hp|left; reflexivity]).
        destruct Hina as [E|Hina]; [now symmetry|].
        destruct Hinb as [E|Hinb]; [assumption|].
        exfalso.
        eapply key_ltb_asym;
          [ exact (proj1 (Forall_forall _ _) Ha _ Hinb)
          | exact (proj1 (Forall_forall _ _) Hb _ Hina) ]. }
      subst b. f_equal. apply IH; [assumption|].
      eapply Permutation_cons_inv; exact Hp.
Qed.

(** The sorted items of a dict do not depend on its insertion order. *)
Lemma sorted_permutation l1 l2 :
  NoDup (map ident_of l1) -> Permutation l1 l2 ->
  sorted l1 = sorted l2.
Proof.
  intros Hnd Hp.
  assert (Hnd2 : NoDup (map ident_of l2))
    by (eapply Permutation_NoDup; [apply Permutation_map, Hp|exact Hnd]).
  assert (Huni : forall c, Forall (has_kind c) l1 ->
                           sorted l1 = sorted l2).
  { intros c Hc.
    assert (Hc2 : Forall (has_kind c) l2)
      by (eapply Permutation_Forall; eassumption).
    rewrite (sorted_uniform c l1), (sorted_uniform c l2) by assumption.
    f_equal. apply strongly_sorted_unique.
    - now apply (isort_sorted c).
    - now apply (isort_sorted c).
    - eapply perm_trans; [apply Permutation_sym, isort_perm|].
      eapply perm_trans; [exact Hp|apply isort_perm]. }
  destruct (le_lt_dec 2 (List.length l1)) as [Hlen|Hlen].
  - destruct (sorted l1) as [r1|e1] eqn:H1.
    + destruct (sorted_ok_kind _ _ H1 Hlen) as (c & Hc).
      now apply (Huni c).
    + destruct (sorted l2) as [r2|e2] eqn:H2.
      * assert (Hlen2 : (2 <= List.length l2)%nat)
          by (rewrite <- (Permutation_length Hp); exact Hlen).
        destruct (sorted_ok_kind _ _ H2 Hlen2) as (c & Hc).
        apply (Huni c).
        eapply Permutation_Forall; [apply Permutation_sym, Hp|exact Hc].
      * apply sorted_raise in H1, H2. congruence.
  - destruct l1 as [|x [|x' l1]]; simpl in Hlen; try lia.
    + apply Permutation_nil in Hp. now subst.
    + apply Permutation_length_1_inv in Hp. now subst.
Qed.
End SortedFacts.

(** ** Comprehensions *)

Lemma Ok_inj {A} (a b : A) : Ok a = Ok b -> a = b.
Proof. congruence. Qed.

Section MapMFacts.
Context {A B : Type} (f : A -> result B).

Lemma mapM_ok l r :
  mapM f l = Ok r -> Forall2 (fun x y => f x = Ok y) l r.
Proof.
  revert r. induction l as [|x l IH]; simpl; intros r H.
  - injection H as <-. constructor.
  - destruct (f x) as [y|] eqn:Hx; [|discriminate].
    destruct (mapM f l) as [ys|]; [|discriminate].
    injection H as <-. constructor; auto.
Qed.

Lemma mapM_raise l e :
  mapM f l = Raise e -> exists x, In x l /\ f x = Raise e.
Proof.
  induction l as [|x l IH]; simpl; [discriminate|].
  destruct (f x) as [y|e'] eqn:Hx.
  - destruct (mapM f l) as [ys|e'']; [discriminate|].
    intros H. injection H as <-.
    destruct IH as (x' & Hin & Hx'); [reflexivity|].
    exists x'. auto.
  - intros H. injection H as <-. exists x. auto.
Qed.

Lemma mapM_all_ok l :
  (forall x, In x l -> succeeds (f x) = true) ->
  exists r, mapM f l = Ok r.
Proof.
  induction l as [|x l IH]; simpl; intros H; [eauto|].
  pose proof (H x (or_introl eq_refl)) as Hx.
  destruct (f x) as [y|]; [|discriminate].
  destruct IH as (r & ->); [intros; apply H; now right|].
  eauto.
Qed.

End MapMFacts.

Lemma sumZ_perm {A} (f : A -> Z) l1 l2 :
  Permutation l1 l2 -> sumZ f l1 = sumZ f l2.
Proof.
  unfold sumZ. induction 1; simpl; lia.
Qed.

Lemma sumZ_Forall2 {A B} (f : A -> Z) (g : B -> Z) l1 l2 :
  Forall2 (fun x y => f x = g y) l1 l2 -> sumZ f l1 = sumZ g l2.
Proof.
  unfold sumZ. induction 1; simpl; lia.
Qed.

Lemma mapM_succeeds {A B} (f : A -> result B) l :
  succeeds (mapM f l) = true <->
  Forall (fun x => succeeds (f x) = true) l.
Proof.
  split.
  - destruct (mapM f l) as [r|] eqn:Hm; [|discriminate].
    intros _. apply mapM_ok in Hm.
    induction Hm as [|x y l r Hx Hm IH]; constructor; auto.
    now rewrite Hx.
  - intros H. destruct (mapM_all_ok f l) as (r & ->); [|reflexivity].
    now apply Forall_forall.
Qed.

Lemma mapM_pointwise {A B} (f : A -> result B) l1 l2 :
  Forall2 (fun x y => f x = f y) l1 l2 -> mapM f l1 = mapM f l2.
Proof.
  induction 1 as [|x y l1 l2 Hxy H IH]; simpl; [reflexivity|].
  now rewrite Hxy, IH.
Qed.

(** [sorted] looks at the keys only: on lists with the same keys and
    related values it raises alike or yields related lists. *)
Section SortedRel.
Context {V W : Type} (R : V -> W -> Prop).

Lemma insert_item_rel x y l1 l2 :
  item_rel R x y -> Forall2 (item_rel R) l1 l2 ->
  match insert_item x l1, insert_item y l2 with
  | Ok r1, Ok r2 => Forall2 (item_rel R) r1 r2
  | Raise e1, Raise e2 => e1 = e2
  | _, _ => False
  end.
Proof.
  intros Hxy HF. induction HF as [|a b l1 l2 Hab HF IH]; simpl.
  - constructor; [assumption|constructor].
  - destruct Hab as [Hk Hv]. destruct Hxy as [Hxk Hxv].
    rewrite <- Hk, <- Hxk.
    destruct (key_lt (fst a) (fst x)) as [[|]|e]; try reflexivity.
    + destruct (insert_item x l1) as [r1|e1], (insert_item y l2) as [r2|e2];
        try contradiction; try assumption.
      constructor; [split; assumption|assumption].
    + constructor; [split; assumption|].
      constructor; [split; assumption|assumption].
Qed.

Lemma sorted_rel l1 l2 :
  Forall2 (item_rel R) l1 l2 ->
  match sorted l1, sorted l2 with
  | Ok r1, Ok r2 => Forall2 (item_rel R) r1 r2
  | Raise e1, Raise e2 => e1 = e2
  | _, _ => False
  end.
Proof.
  induction 1 as [|x y l1 l2 Hxy HF IH]; simpl; [constructor|].
  destruct (sorted l1) as [s1|e1], (sorted l2) as [s2|e2];
    try contradiction; try assumption.
  now apply insert_item_rel.
Qed.
End SortedRel.

Lemma nodupb_NoDup l : nodupb l = true -> NoDup l.
Proof.
  induction l as [|k l IH]; simpl; intros H; [constructor|].
  apply andb_true_iff in H as [Hk Hl].
  constructor; [|now apply IH].
  intros Hin. apply negb_true_iff in Hk.
  assert (Hex : existsb (fun k' => if pykey_eq_dec k k' then true else false)
                        l = true).
  { apply existsb_exists. exists k. split; [assumption|].
    destruct (pykey_eq_dec k k); [reflexivity|contradiction]. }
  congruence.
Qed.

(** ** The encoder *)

Section EncoderFacts.
Context {py : interpreter}.
Variables isep ksep : pystr.
Variable sk : bool.

Lemma encode_list n l :
  encode isep ksep sk (S n) (PList l)
  = match mapM (encode isep ksep sk n) l with
    | Ok chunks => Ok (lit "[" ++ join isep chunks ++ lit "]")
    | Raise e => Raise e
    end.
Proof. reflexivity. Qed.

Lemma encode_dict n d :
  encode isep ksep sk (S n) (PDict d)
  = match (if sk then sorted d else Ok d) with
    | Ok items =>
        match mapM (encode_item ksep (encode isep ksep sk n)) items with
        | Ok chunks => Ok (lit "{" ++ join isep chunks ++ lit "}")
        | Raise e => Raise e
        end
    | Raise e => Raise e
    end.
Proof. reflexivity. Qed.

Lemma encode_item_unfold enc kv :
  encode_item ksep enc kv
  = match key_text (fst kv) with
    | Ok k =>
        match enc (snd kv) with
        | Ok v => Ok (encode_basestring_ascii k ++ ksep ++ v)
        | Raise e => Raise e
        end
    | Raise e => Raise e
    end.
Proof. reflexivity. Qed.

Lemma encode_item_succeeds enc kv :
  succeeds (encode_item ksep enc kv) = true <->
  succeeds (key_text (fst kv)) = true /\ succeeds (enc (snd kv)) = true.
Proof.
  rewrite encode_item_unfold.
  destruct (key_text (fst kv)); [|simpl; intuition discriminate].
  destruct (enc (snd kv)); simpl; intuition discriminate.
Qed.

Lemma key_text_raise k e : key_text k = Raise e -> encoder_exn e.
Proof.
  destruct k as [s|n|[|]| |id]; simpl; try discriminate.
  - intros H. apply int_repr_raise in H. right; left. exact H.
  - intros H. left. congruence.
Qed.

Lemma sort_step_perm (d items : list (pykey * pyval)) :
  (if sk then sorted d else Ok d) = Ok items -> Permutation d items.
Proof.
  destruct sk.
  - apply sorted_perm.
  - intros H. injection H as <-. apply Permutation_refl.
Qed.

Lemma sort_step_raise (d : list (pykey * pyval)) e :
  (if sk then sorted d else Ok d) = Raise e -> e = TypeError.
Proof.
  destruct sk; [apply sorted_raise|discriminate].
Qed.

(** The encoder raises one of its three exceptions. *)
Lemma encode_raise n v e :
  encode isep ksep sk n v = Raise e -> encoder_exn e.
Proof.
  revert v e. induction n as [|n IH]; intros v e;
    destruct v as [|[|]|z|f|t|l|d| |id]; simpl; try discriminate;
    try (intros H; apply int_repr_raise in H; right; left; exact H);
    try (intros H; left; congruence);
    try (intros H; right; left; congruence);
    try (intros H; right; right; congruence).
  - destruct (mapM (encode isep ksep sk n) l) eqn:Hm; [discriminate|].
    intros H. injection H as <-.
    apply mapM_raise in Hm as (x & _ & Hx). eauto.
  - destruct (if sk then sorted d else Ok d) as [items|e1] eqn:Hs.
    + destruct (mapM (encode_item ksep (encode isep ksep sk n)) items)
        eqn:Hm; [discriminate|].
      intros H. injection H as <-.
      apply mapM_raise in Hm as (kv & _ & Hkv).
      rewrite encode_item_unfold in Hkv.
      destruct (key_text (fst kv)) eqn:Hk.
      * destruct (encode isep ksep sk n (snd kv)) eqn:Hv; [discriminate|].
        injection Hkv as <-. eauto.
      * injection Hkv as <-. eapply key_text_raise; eauto.
    + intros H. injection H as <-. left. eapply sort_step_raise; eauto.
Qed.

Lemma key_text_braces k t : key_text k = Ok t -> braces t = key_braces k.
Proof.
  destruct k as [s|n|[|]| |id]; simpl; intros H; try discriminate;
    try (injection H as <-; reflexivity).
  apply int_repr_ok in H. subst t. apply braces_int_digits.
Qed.

Lemma encode_item_braces enc kv chunk :
  braces ksep = 0 ->
  encode_item ksep enc kv = Ok chunk ->
  exists v, enc (snd kv) = Ok v
            /\ braces chunk = key_braces (fst kv) + braces v.
Proof.
  intros Hk. rewrite encode_item_unfold.
  destruct (key_text (fst kv)) as [t|] eqn:Ht; [|discriminate].
  destruct (enc (snd kv)) as [v|]; [|discriminate].
  intros H. apply Ok_inj in H. subst chunk.
  exists v. split; [reflexivity|].
  rewrite !braces_app, braces_basestring, Hk.
  rewrite (key_text_braces _ _ Ht). lia.
Qed.

(** The braces of the text are those of the value: whatever the
    separators (as long as they hold no brace) and the order of keys. *)
Lemma encode_braces n v s :
  braces isep = 0 -> braces ksep = 0 ->
  encode isep ksep sk n v = Ok s -> braces s = nesting_of v.
Proof.
  intros Hi Hk. revert v s. induction n as [|n IH]; intros v s;
    destruct v as [|[|]|z|f|t|l|d| |id];
    try (simpl; discriminate);
    try (simpl; intros H; apply Ok_inj in H; subst s; reflexivity);
    try (simpl; intros H; apply int_repr_ok in H; subst s;
         apply braces_int_digits);
    try (simpl; intros H; apply Ok_inj in H; subst s;
         apply braces_basestring).
  - rewrite encode_list.
    destruct (mapM (encode isep ksep sk n) l) as [chunks|] eqn:Hm;
      [|discriminate].
    intros H. apply Ok_inj in H. subst s.
    rewrite !braces_app, braces_join by assumption.
    change (fold_right (fun c acc => braces c + acc) 0 chunks)
      with (sumZ braces chunks).
    change (nesting_of (PList l)) with (1 + sumZ nesting_of l).
    change (braces (lit "[")) with 1. change (braces (lit "]")) with 0.
    rewrite <- (sumZ_Forall2 nesting_of braces l chunks); [lia|].
    apply mapM_ok in Hm.
    induction Hm as [|x c l chunks Hx Hm IHm]; constructor; auto.
    symmetry. auto.
  - rewrite encode_dict.
    destruct (if sk then sorted d else Ok d) as [items|] eqn:Hs;
      [|discriminate].
    destruct (mapM (encode_item ksep (encode isep ksep sk n)) items)
      as [chunks|] eqn:Hc; [|discriminate].
    intros H. apply Ok_inj in H. subst s.
    rewrite !braces_app, braces_join by assumption.
    change (fold_right (fun c acc => braces c + acc) 0 chunks)
      with (sumZ braces chunks).
    change (nesting_of (PDict d))
      with (1 + sumZ (fun kv => key_braces (fst kv) + nesting_of (snd kv))
                     d).
    change (braces (lit "{")) with 1. change (braces (lit "}")) with 0.
    rewrite (sumZ_perm _ d items) by now apply sort_step_perm.
    rewrite <- (sumZ_Forall2
                  (fun kv => key_braces (fst kv) + nesting_of (snd kv))
                  braces items chunks); [lia|].
    apply mapM_ok in Hc. clear Hs.
    induction Hc as [|kv c items chunks Hkv Hc IHc]; constructor; auto.
    apply (encode_item_braces _ _ _ Hk) in Hkv as (v & Hv & ->).
    f_equal. symmetry. eauto.
Qed.

Lemma encode_list_ok n l :
  succeeds (encode isep ksep sk (S n) (PList l)) = true <->
  Forall (fun x => succeeds (encode isep ksep sk n x) = true) l.
Proof.
  rewrite encode_list, <- mapM_succeeds.
  destruct (mapM (encode isep ksep sk n) l); reflexivity.
Qed.

Lemma encode_dict_ok n d :
  succeeds (encode isep ksep sk (S n) (PDict d)) = true <->
  succeeds (if sk then sorted d else Ok d) = true
  /\ Forall (fun kv => succeeds (key_text (fst kv)) = true
                       /\ succeeds (encode isep ksep sk n (snd kv)) = true)
            d.
Proof.
  rewrite encode_dict.
  destruct (if sk then sorted d else Ok d) as [items|] eqn:Hs;
    [|simpl; intuition discriminate].
  apply sort_step_perm in Hs.
  assert (E : succeeds
                (mapM (encode_item ksep (encode isep ksep sk n)) items) = true
              <-> Forall (fun kv =>
                     succeeds (key_text (fst kv)) = true
                     /\ succeeds (encode isep ksep sk n (snd kv)) = true) d).
  { rewrite mapM_succeeds. split; intros H.
    - eapply Permutation_Forall; [apply Permutation_sym, Hs|].
      eapply Forall_impl; [|exact H].
      intros kv. apply encode_item_succeeds.
    - eapply Permutation_Forall; [exact Hs|].
      eapply Forall_impl; [|exact H].
      intros kv. apply encode_item_succeeds. }
  destruct (mapM (encode_item ksep (encode isep ksep sk n)) items);
    simpl in *; intuition.
Qed.
End EncoderFacts.

Section EncoderCompared.
Context {py : interpreter}.

(** A payload with a canonical form has a plain one, and neither depends
    on the separators. *)
Lemma encode_succeeds_mono i1 k1 b1 i2 k2 b2 n v :
  implb b2 b1 = true ->
  succeeds (encode i1 k1 b1 n v) = true ->
  succeeds (encode i2 k2 b2 n v) = true.
Proof.
  intros Hb. revert v. induction n as [|n IH]; intros v;
    destruct v as [|[|]|z|f|t|l|d| |id];
    try (simpl; exact (fun H => H)).
  - rewrite !encode_list_ok. intros H.
    eapply Forall_impl; [|exact H]. intros x. apply IH.
  - rewrite !encode_dict_ok. intros [Hs H]. split.
    + destruct b2; [|reflexivity]. destruct b1; [exact Hs|discriminate].
    + eapply Forall_impl; [|exact H]. intros kv [Hk Hv]. auto.
Qed.

(** On payloads with [str] keys only, the plain form brings the canonical
    one: for them the two readings of serializable agree. *)
Lemma canonical_of_plain isep ksep n v :
  str_keys v = true ->
  succeeds (encode isep ksep false n v) = true ->
  succeeds (encode isep ksep true n v) = true.
Proof.
  revert v. induction n as [|n IH]; intros v;
    destruct v as [|[|]|z|f|t|l|d| |id]; intros Hk;
    try (simpl; exact (fun H => H)).
  - rewrite !encode_list_ok. intros H. simpl in Hk.
    apply Forall_forall. intros x Hin. apply IH.
    + apply (proj1 (forallb_forall _ _) Hk x Hin).
    + apply (proj1 (Forall_forall _ _) H x Hin).
  - rewrite !encode_dict_ok. intros [_ H]. simpl in Hk. split.
    + rewrite (sorted_uniform StrKey); [reflexivity|].
      apply Forall_forall. intros kv Hin.
      pose proof (proj1 (forallb_forall _ _) Hk kv Hin) as Hs.
      apply andb_true_iff in Hs as [Hs _].
      unfold has_kind. destruct (fst kv); try discriminate. reflexivity.
    + apply Forall_forall. intros kv Hin.
      destruct (proj1 (Forall_forall _ _) H kv Hin) as [Hkt Hv].
      split; [exact Hkt|]. apply IH; [|exact Hv].
      pose proof (proj1 (forallb_forall _ _) Hk kv Hin) as Hs.
      now apply andb_true_iff in Hs as [_ Hs].
Qed.


(** The canonical form, or the exception in its place, does not depend on
    the insertion order of keys. *)
Lemma encode_key_reorder isep ksep n a b :
  key_reorder a b -> distinct_keys a = true ->
  encode isep ksep true n a = encode isep ksep true n b.
Proof.
  revert n b.
  induction a as [|[|]|z|f|t|l IH|d IH| |id] using pyval_nested_ind;
    intros n b Hr Hd; inversion Hr; subst; try reflexivity.
  - destruct n as [|n]; [reflexivity|]. rewrite !encode_list.
    rewrite (mapM_pointwise (encode isep ksep true n) l l2); [reflexivity|].
    simpl in Hd.
    match goal with H : Forall2 key_reorder l l2 |- _ => rename H into HF end.
    clear Hr. induction HF as [|x y l l2 Hxy HF IHF]; constructor.
    + inversion IH; subst. simpl in Hd.
      apply andb_true_iff in Hd as [Hx _]. auto.
    + inversion IH; subst. simpl in Hd.
      apply andb_true_iff in Hd as [_ Hl]. auto.
  - destruct n as [|n]; [reflexivity|]. rewrite !encode_dict.
    match goal with
    | Hp : Permutation d ?d0, HF : Forall2 _ ?d0 ?d3 |- _ =>
        rename Hp into HP; rename HF into HF2; rename d0 into d'
    end.
    simpl in Hd. apply andb_true_iff in Hd as [Hnd Hvals].
    rewrite (sorted_permutation d d' (nodupb_NoDup _ Hnd) HP).
    set (R := fun vx vy : pyval =>
                encode isep ksep true n vx = encode isep ksep true n vy).
    assert (HR : Forall2 (item_rel R) d' d2).
    { assert (Hd' : Forall (fun kv =>
                       forall b, key_reorder (snd kv) b ->
                                 R (snd kv) b) d').
      { eapply Permutation_Forall; [exact HP|].
        apply Forall_forall. intros kv Hin b Hb.
        apply (proj1 (Forall_forall _ _) IH kv Hin n b Hb).
        apply (proj1 (forallb_forall _ _) Hvals kv Hin). }
      clear - HF2 Hd'.
      induction HF2 as [|x y l1 l2 [Hk Hv] HF IHF]; constructor.
      - inversion Hd'; subst. split; auto.
      - apply IHF. now inversion Hd'. }
    pose proof (sorted_rel R d' d2 HR) as Hs.
    destruct (sorted d') as [r1|e1], (sorted d2) as [r2|e2];
      try contradiction; [|now subst].
    rewrite (mapM_pointwise (encode_item ksep (encode isep ksep true n))
               r1 r2); [reflexivity|].
    eapply Forall2_impl; [|exact Hs].
    intros x y [Hk Hv]. rewrite !encode_item_unfold, Hk.
    unfold R in Hv. now rewrite Hv.
Qed.

(** Whether the plain form exists does not depend on that order. *)
Lemma plain_ok_reorder isep ksep n a b :
  key_reorder a b ->
  (succeeds (encode isep ksep false n a) = true <->
   succeeds (encode isep ksep false n b) = true).
Proof.
  revert n b.
  induction a as [|[|]|z|f|t|l IH|d IH| |id] using pyval_nested_ind;
    intros n b Hr; inversion Hr; subst; try reflexivity.
  - destruct n as [|n]; [reflexivity|]. rewrite !encode_list_ok.
    match goal with H : Forall2 key_reorder l l2 |- _ => rename H into HF end.
    clear Hr. induction HF as [|x y l l2 Hxy HF IHF].
    + split; constructor.
    + inversion IH as [|? ? Hx IH']; subst.
      specialize (IHF IH'). specialize (Hx n y Hxy).
      split; intros H; inversion H; subst; constructor;
        try (now apply Hx); now apply IHF.
  - destruct n as [|n]; [reflexivity|]. rewrite !encode_dict_ok.
    match goal with
    | Hp : Permutation d ?d0, HF : Forall2 _ ?d0 ?d3 |- _ =>
        rename Hp into HP; rename HF into HF2; rename d0 into d'
    end.
    assert (IH' : Forall (fun kv =>
                     forall b, key_reorder (snd kv) b ->
                       (succeeds (encode isep ksep false n (snd kv)) = true
                        <-> succeeds (encode isep ksep false n b) = true)) d').
    { eapply Permutation_Forall; [exact HP|].
      eapply Forall_impl; [|exact IH]. intros kv H b0. apply H. }
    assert (E : Forall (fun kv =>
                   succeeds (key_text (fst kv)) = true
                   /\ succeeds (encode isep ksep false n (snd kv)) = true) d'
                <-> Forall (fun kv =>
                   succeeds (key_text (fst kv)) = true
                   /\ succeeds (encode isep ksep false n (snd kv)) = true)
                      d2).
    { clear - HF2 IH'.
      induction HF2 as [|x y l1 l2 [Hk Hv] HF IHF].
      - split; constructor.
      - inversion IH' as [|? ? Hx IH'']; subst.
        specialize (IHF IH''). specialize (Hx _ Hv).
        split; intros H; inversion H as [|? ? [H1 H2] H3]; subst;
          constructor; try (now apply IHF).
        + split; [now rewrite <- Hk|now apply Hx].
        + split; [now rewrite Hk|now apply Hx]. }
    split; intros [_ H]; (split; [reflexivity|]).
    + apply E. eapply Permutation_Forall; [exact HP|exact H].
    + eapply Permutation_Forall; [apply Permutation_sym, HP|]. now apply E.
Qed.
End EncoderCompared.

Lemma nesting_of_nonneg v : 0 <= nesting_of v.
Proof.
  induction v as [|[|]|n|f|t|l IH|d IH| |id] using pyval_nested_ind;
    try (simpl; lia); try apply braces_nonneg.
  - change (0 <= 1 + sumZ nesting_of l).
    assert (0 <= sumZ nesting_of l); [|lia].
    unfold sumZ. induction IH as [|x l Hx _ IHl]; simpl; lia.
  - change (0 <= 1 + sumZ (fun kv => key_braces (fst kv)
                                     + nesting_of (snd kv)) d).
    assert (0 <= sumZ (fun kv => key_braces (fst kv)
                                 + nesting_of (snd kv)) d); [|lia].
    unfold sumZ. induction IH as [|kv d Hx _ IHd]; simpl; [lia|].
    assert (0 <= key_braces (fst kv))
      by (destruct (fst kv); simpl; try lia; apply braces_nonneg).
    lia.
Qed.

Lemma nesting_of_reorder a b : key_reorder a b -> nesting_of a = nesting_of b.
Proof.
  revert b.
  induction a as [|[|]|n|f|t|l IH|d IH| |id] using pyval_nested_ind;
    intros b Hr; inversion Hr; subst; try reflexivity.
  - change (1 + sumZ nesting_of l = 1 + sumZ nesting_of l2). f_equal.
    apply sumZ_Forall2.
    match goal with H : Forall2 key_reorder l l2 |- _ => rename H into HF end.
    clear Hr. induction HF as [|x y l l2 Hxy HF IHF]; constructor.
    + inversion IH; subst. auto.
    + apply IHF. now inversion IH.
  - match goal with
    | Hp : Permutation d ?d0, HF : Forall2 _ ?d0 ?d3 |- _ =>
        rename Hp into HP; rename HF into HF2; rename d0 into d'
    end.
    change (1 + sumZ (fun kv => key_braces (fst kv) + nesting_of (snd kv)) d
            = 1 + sumZ (fun kv => key_braces (fst kv) + nesting_of (snd kv))
                       d2).
    f_equal. rewrite (sumZ_perm _ d d' HP).
    apply sumZ_Forall2.
    assert (IH' : Forall (fun kv =>
                     forall b, key_reorder (snd kv) b ->
                               nesting_of (snd kv) = nesting_of b) d')
      by (eapply Permutation_Forall; eassumption).
    clear - HF2 IH'.
    induction HF2 as [|x y l1 l2 [Hk Hv] HF IHF]; constructor.
    + inversion IH'; subst. rewrite Hk. f_equal. auto.
    + apply IHF. now inversion IH'.
Qed.

(** ** Slices and indices *)

Lemma list_shape {A} (l : list A) :
  l = [] \/ (exists a, l = [a]) \/ (exists older a b, l = older ++ [a; b]).
Proof.
  destruct l as [|x l] using rev_ind; [auto|].
  destruct l as [|y l _] using rev_ind.
  - right; left. exists x. reflexivity.
  - right; right. exists l, y, x. now rewrite <- app_assoc.
Qed.

Lemma last_two_slice_app {A} (older : list A) a b :
  last_two_slice (older ++ [a; b]) = [a; b].
Proof.
  unfold last_two_slice. rewrite length_app. simpl.
  replace (List.length older + 2 - 2)%nat with (List.length older) by lia.
  rewrite skipn_app, skipn_all, Nat.sub_diag. reflexivity.
Qed.

Lemma getlast_app {A} (older : list A) r : getlast (older ++ [r]) = Ok r.
Proof. unfold getlast. now rewrite rev_app_distr. Qed.

Lemma more_than_one {A} (older : list A) a b :
  (1 <? List.length (older ++ [a; b]))%nat = true.
Proof. apply Nat.ltb_lt. rewrite length_app. simpl. lia. Qed.

(** ** The three penalties *)

Section TrackerFacts.
Context {py : interpreter}.

Lemma inconsistency_short rs :
  (List.length rs < 2)%nat -> inconsistency_penalty rs = Ok 0.
Proof.
  intros H. unfold inconsistency_penalty.
  destruct (Nat.ltb_spec 1 (List.length rs)); [lia|reflexivity].
Qed.

Lemma inconsistency_last_two older ra rb :
  inconsistency_penalty (older ++ [ra; rb])
  = match json_dumps true (data ra) with
    | Ok sa =>
        match json_dumps true (data rb) with
        | Ok sb => Ok (if pystr_eq_dec sa sb then 0 else 40)
        | Raise e => Raise e
        end
    | Raise e => Raise e
    end.
Proof.
  unfold inconsistency_penalty.
  rewrite more_than_one, last_two_slice_app. simpl.
  destruct (json_dumps true (data ra)) as [sa|]; [|reflexivity].
  destruct (json_dumps true (data rb)) as [sb|]; [|reflexivity].
  simpl. destruct (pystr_eq_dec sa sb); reflexivity.
Qed.

Lemma complexity_last older r :
  complexity_penalty (older ++ [r])
  = match json_dumps false (data r) with
    | Ok sample => Ok (Z.min 30 (braces sample * 2))
    | Raise e => Raise e
    end.
Proof.
  unfold complexity_penalty.
  assert (E : is_empty (older ++ [r]) = false) by now destruct older.
  rewrite E, getlast_app. reflexivity.
Qed.

Lemma error_penalty_range errs :
  0 <= error_penalty errs <= 30
  /\ exists k, error_penalty errs = 2 * k.
Proof.
  unfold error_penalty. split; [lia|].
  destruct (Z.le_ge_cases 30 (Z.of_nat (List.length errs) * 10)).
  - exists 15. lia.
  - exists (Z.of_nat (List.length errs) * 5). lia.
Qed.

Lemma inconsistency_range rs p :
  inconsistency_penalty rs = Ok p -> p = 0 \/ p = 40.
Proof.
  destruct (list_shape rs) as [->|[(a & ->)|(older & a & b & ->)]].
  - intros H. apply Ok_inj in H. auto.
  - intros H. apply Ok_inj in H. auto.
  - rewrite inconsistency_last_two.
    destruct (json_dumps true (data a)) as [sa|]; [|discriminate].
    destruct (json_dumps true (data b)) as [sb|]; [|discriminate].
    intros H. apply Ok_inj in H.
    destruct (pystr_eq_dec sa sb); auto.
Qed.

Lemma complexity_range rs p :
  complexity_penalty rs = Ok p ->
  0 <= p <= 30 /\ exists k, p = 2 * k.
Proof.
  destruct rs as [|x rs _] using rev_ind.
  - intros H. apply Ok_inj in H. subst p. split; [lia|]. exists 0. lia.
  - rewrite complexity_last.
    destruct (json_dumps false (data x)) as [s|]; [|discriminate].
    intros H. apply Ok_inj in H. subst p.
    pose proof (braces_nonneg s). split; [lia|].
    destruct (Z.le_ge_cases 30 (braces s * 2)).
    + exists 15. lia.
    + exists (braces s). lia.
Qed.

(** ** The float arithmetic of the score is exact *)

Lemma misery_float_exact_nat (b : bool) (i j : nat) :
  (i <= 30)%nat -> (j <= 30)%nat ->
  float_min 100
    (0 + float_of_Z (if b then 40 else 0) + float_of_Z (Z.of_nat i)
     + float_of_Z (Z.of_nat j))%float
  = float_of_Z (Z.min 100 ((if b then 40 else 0) + Z.of_nat i + Z.of_nat j)).
Proof.
  intros Hi Hj.
  do 31 (destruct i as [|i];
         [do 31 (destruct j as [|j];
                 [destruct b; vm_compute; reflexivity|]); lia|]).
  lia.
Qed.

Lemma misery_float_exact p1 p2 p3 :
  p1 = 0 \/ p1 = 40 -> 0 <= p2 <= 30 -> 0 <= p3 <= 30 ->
  float_min 100 (0 + float_of_Z p1 + float_of_Z p2 + float_of_Z p3)%float
  = float_of_Z (Z.min 100 (p1 + p2 + p3)).
Proof.
  intros H1 H2 H3.
  rewrite <- (Z2Nat.id p2), <- (Z2Nat.id p3) by lia.
  destruct H1 as [-> | ->].
  - apply (misery_float_exact_nat false); lia.
  - apply (misery_float_exact_nat true); lia.
Qed.

(** The three additions round nothing. *)
Lemma misery_float_sum_nat (b : bool) (i j : nat) :
  (i <= 30)%nat -> (j <= 30)%nat ->
  (0 + float_of_Z (if b then 40 else 0) + float_of_Z (Z.of_nat i)
   + float_of_Z (Z.of_nat j))%float
  = float_of_Z ((if b then 40 else 0) + Z.of_nat i + Z.of_nat j).
Proof.
  intros Hi Hj.
  do 31 (destruct i as [|i];
         [do 31 (destruct j as [|j];
                 [destruct b; vm_compute; reflexivity|]); lia|]).
  lia.
Qed.

Lemma misery_float_sum p1 p2 p3 :
  p1 = 0 \/ p1 = 40 -> 0 <= p2 <= 30 -> 0 <= p3 <= 30 ->
  (0 + float_of_Z p1 + float_of_Z p2 + float_of_Z p3)%float
  = float_of_Z (p1 + p2 + p3).
Proof.
  intros H1 H2 H3.
  rewrite <- (Z2Nat.id p2), <- (Z2Nat.id p3) by lia.
  destruct H1 as [-> | ->].
  - apply (misery_float_sum_nat false); lia.
  - apply (misery_float_sum_nat true); lia.
Qed.

(** Comparing a score with the bounds and the thresholds is comparing the
    integers. *)
Lemma float_of_Z_compare_nat (i : nat) :
  (i <= 100)%nat ->
  let z := Z.of_nat i in
  let s := float_of_Z z in
  ((0 <=? s)%float = true /\ (s <=? 100)%float = true)
  /\ ((s <? 20)%float = (z <? 20) /\ (s <? 50)%float = (z <? 50)
      /\ (s <? 80)%float = (z <? 80))
  /\ ((20 <=? s)%float = (20 <=? z) /\ (50 <=? s)%float = (50 <=? z)
      /\ (80 <=? s)%float = (80 <=? z))
  /\ float_min 100 s = s.
Proof.
  intros Hi.
  do 101 (destruct i as [|i]; [vm_compute; repeat split; reflexivity|]).
  lia.
Qed.

Lemma float_of_Z_compare z :
  0 <= z <= 100 ->
  let s := float_of_Z z in
  ((0 <=? s)%float = true /\ (s <=? 100)%float = true)
  /\ ((s <? 20)%float = (z <? 20) /\ (s <? 50)%float = (z <? 50)
      /\ (s <? 80)%float = (z <? 80))
  /\ ((20 <=? s)%float = (20 <=? z) /\ (50 <=? s)%float = (50 <=? z)
      /\ (80 <=? s)%float = (80 <=? z))
  /\ float_min 100 s = s.
Proof.
  intros Hz. rewrite <- (Z2Nat.id z) by lia.
  apply float_of_Z_compare_nat. lia.
Qed.

(** ** The score *)

Lemma misery_points_sum self z :
  responses self <> [] ->
  misery_points self = Ok z ->
  exists p1 p3,
    inconsistency_penalty (responses self) = Ok p1
    /\ complexity_penalty (responses self) = Ok p3
    /\ z = Z.min 100 (p1 + error_penalty (errors self) + p3).
Proof.
  intros Hne. unfold misery_points, bind, result_monad.
  destruct (responses self) eqn:E; [contradiction|]. simpl.
  destruct (inconsistency_penalty (r :: l)) as [p1|]; [|discriminate].
  destruct (complexity_penalty (r :: l)) as [p3|]; [|discriminate].
  intros H. apply Ok_inj in H. exists p1, p3. repeat split. lia.
Qed.

Lemma misery_points_bounds self z :
  misery_points self = Ok z ->
  0 <= z <= 100 /\ exists k, z = 2 * k.
Proof.
  destruct (responses self) eqn:E.
  - unfold misery_points. rewrite E. simpl.
    intros H. apply Ok_inj in H. subst z. split; [lia|]. exists 0. lia.
  - intros H. apply misery_points_sum in H as (p1 & p3 & H1 & H3 & ->);
      [|congruence].
    apply inconsistency_range in H1.
    apply complexity_range in H3 as [H3 (k3 & Hk3)].
    destruct (error_penalty_range (errors self)) as [H2 (k2 & Hk2)].
    split; [lia|].
    destruct H1 as [-> | ->];
      [exists (Z.min 50 (k2 + k3))|exists (Z.min 50 (20 + k2 + k3))]; lia.
Qed.

Lemma serializable_plain v :
  serializable v -> succeeds (json_dumps false v) = true.
Proof. apply encode_succeeds_mono. reflexivity. Qed.

Lemma misery_points_returns self :
  Forall (fun r => serializable (data r)) (responses self) ->
  exists z, misery_points self = Ok z.
Proof.
  intros Hs. unfold misery_points, bind, result_monad.
  destruct (list_shape (responses self))
    as [E|[(a & E)|(older & a & b & E)]]; rewrite E in *.
  - simpl. eauto.
  - inversion Hs as [|? ? Ha _]; subst.
    apply serializable_plain in Ha.
    change [a] with ([] ++ [a]).
    rewrite complexity_last.
    destruct (json_dumps false (data a)); [|discriminate].
    simpl. eauto.
  - apply Forall_app in Hs as [_ Hab].
    inversion Hab as [|? ? Ha Hb']; subst.
    inversion Hb' as [|? ? Hb _]; subst.
    pose proof (serializable_plain _ Hb) as Hp.
    unfold serializable in Ha, Hb.
    rewrite inconsistency_last_two.
    replace (older ++ [a; b]) with ((older ++ [a]) ++ [b])
      by now rewrite <- app_assoc.
    rewrite complexity_last.
    destruct (json_dumps true (data a)); [|discriminate].
    destruct (json_dumps true (data b)); [|discriminate].
    destruct (json_dumps false (data b)); [|discriminate].
    destruct ((older ++ [a]) ++ [b]) eqn:E'; [now destruct older|].
    simpl. eauto.
Qed.

(** [calculate_misery] unfolded: the float of the points, and [self] as it
    was. *)
Lemma calculate_misery_unfold self :
  calculate_misery self
  = (match misery_points self with
     | Ok z => Ok (float_of_Z z)
     | Raise e => Raise e
     end, self).
Proof.
  unfold calculate_misery, misery_points, bind, method_monad, result_monad,
    get_self, lift, ret.
  destruct (is_empty (responses self)); [reflexivity|].
  destruct (inconsistency_penalty (responses self)) as [p1|] eqn:H1;
    [|reflexivity].
  destruct (complexity_penalty (responses self)) as [p3|] eqn:H3;
    [|reflexivity].
  do 2 f_equal.
  apply misery_float_exact.
  - eapply inconsistency_range; eauto.
  - apply error_penalty_range.
  - eapply complexity_range; eauto.
Qed.

Lemma calculate_misery_ok self v :
  fst (calculate_misery self) = Ok v ->
  exists z, misery_points self = Ok z /\ v = float_of_Z z.
Proof.
  rewrite calculate_misery_unfold. cbn [fst].
  destruct (misery_points self) as [z|]; [|discriminate].
  intros H. apply Ok_inj in H. eauto.
Qed.

Lemma get_diagnosis_unfold self :
  get_diagnosis self
  = (match fst (calculate_misery self) with
     | Ok score =>
         Ok (api_name self ++
             (if (score <? 20)%float then stable_msg
              else if (score <? 50)%float then mild_msg
              else if (score <? 80)%float then suffering_msg
              else critical_msg))
     | Raise e => Raise e
     end, self).
Proof.
  unfold get_diagnosis, bind, method_monad.
  pose proof (f_equal snd (calculate_misery_unfold self)) as Hself.
  destruct (calculate_misery self) as [[score|e] self']; simpl in Hself;
    subst self'; [|reflexivity].
  unfold get_self, ret. cbn [fst].
  destruct (score <? 20)%float; [reflexivity|].
  destruct (score <? 50)%float; [reflexivity|].
  destruct (score <? 80)%float; reflexivity.
Qed.

Lemma app_two_inj {A} (l l' : list A) a b a' b' :
  l ++ [a; b] = l' ++ [a'; b'] -> l = l' /\ a = a' /\ b = b'.
Proof.
  intros H.
  change (l ++ [a] ++ [b] = l' ++ [a'] ++ [b']) in H.
  rewrite !app_assoc in H.
  apply app_inj_tail in H as [H ->].
  apply app_inj_tail in H as [-> ->]. auto.
Qed.

End TrackerFacts.

(** ** Sequences of calls *)

Lemma perform_all_state calls self :
  perform_all calls self
  = (Ok tt,
     {| api_name := api_name self;
        responses := responses self ++ logged_responses calls;
        errors := errors self ++ logged_errors calls |}).
Proof.
  revert self. induction calls as [|c calls IH]; intros self.
  - simpl. rewrite !app_nil_r. now destruct self.
  - change (perform_all (c :: calls) self)
      with (match perform c self with
            | (Ok _, self') => perform_all calls self'
            | (Raise e, self') => (Raise e, self')
            end).
    destruct c as [now d|now m]; cbn; rewrite IH; cbn;
      now rewrite <- app_assoc.
Qed.

(** Every value of the record is a tracker that some calls build. *)
Lemma every_state_reachable self :
  exists calls, snd (perform_all calls (init (api_name self))) = self.
Proof.
  exists (map (fun r => LogResponse (timestamp r) (data r)) (responses self)
          ++ map (fun e => LogError (error_timestamp e) (message e))
                 (errors self)).
  rewrite perform_all_state. cbn.
  destruct self as [name rs es]. cbn. f_equal.
  - unfold logged_responses. rewrite flat_map_app.
    replace (flat_map _ (map _ es)) with (@nil ResponseRecord).
    + rewrite app_nil_r. induction rs as [|[t d] rs IH]; cbn; congruence.
    + induction es as [|e es IH]; cbn; congruence.
  - unfold logged_errors. rewrite flat_map_app.
    replace (flat_map _ (map _ rs)) with (@nil ErrorRecord).
    + cbn. induction es as [|[t m] es IH]; cbn; congruence.
    + induction rs as [|r rs IH]; cbn; congruence.
Qed.


(** ** The model on known outputs *)

Example dumps_sorted :
  json_dumps true example_data_1
  = Ok (dq "{'data': {'id': 1}, 'status': 'ok'}").
Proof. reflexivity. Qed.

Example dumps_plain :
  json_dumps false example_data_1
  = Ok (dq "{'status': 'ok', 'data': {'id': 1}}").
Proof. reflexivity. Qed.

Example dumps_scalars :
  json_dumps false
    (PList [PNone; PBool true; PInt (-15); PFloat FNan; PDict []; PList []])
  = Ok (dq "[null, true, -15, NaN, {}, []]").
Proof. reflexivity. Qed.

(** A newline, a quote, e-acute, DEL and a code point above the basic
    plane. *)
Example dumps_escapes :
  json_dumps false (PStr [10; 34; 233; 127; 128512]%N)
  = Ok (dq "'\n\'\u00e9\u007f\ud83d\ude00'").
Proof. reflexivity. Qed.

Example dumps_key_kinds :
  json_dumps true
    (PDict [(KInt 10, PNone); (KBool true, PNone); (KInt (-2), PNone)])
  = Ok (dq "{'-2': null, 'true': null, '10': null}").
Proof. reflexivity. Qed.

Example dumps_mixed_keys :
  json_dumps false mixed_keys = Ok (dq "{'1': 'a', 'b': 2}")
  /\ json_dumps true mixed_keys = Raise TypeError.
Proof. split; reflexivity. Qed.

(** What the encoder refuses, under the default settings: the int of 4301
    digits and the circular reference with [ValueError], the 2000 nested
    lists with [RecursionError]; in a list the first refusal wins; an int
    of 4300 digits passes. *)
Example dumps_refused :
  json_dumps false huge_int = Raise ValueError
  /\ json_dumps true self_containing = Raise ValueError
  /\ json_dumps false deeply_nested = Raise RecursionError
  /\ json_dumps false int_then_object = Raise ValueError
  /\ json_dumps false (PList [PObj 0; huge_int]) = Raise TypeError
  /\ succeeds (json_dumps false (PInt (10 ^ 4300 - 1))) = true.
Proof.
  do 5 (split; [vm_compute; reflexivity|]).
  vm_compute; reflexivity.
Qed.

(** In the plain form the first refused item in insertion order decides
    the exception; the canonical form meets the items in the order of their
    keys, whichever way they were inserted. *)
Example dumps_order_of_failure :
  json_dumps false failing_items = Raise TypeError
  /\ json_dumps false failing_items_reordered = Raise ValueError
  /\ json_dumps true failing_items = Raise TypeError
  /\ json_dumps true failing_items_reordered = Raise TypeError.
Proof.
  do 3 (split; [vm_compute; reflexivity|]).
  vm_compute; reflexivity.
Qed.

(** An int key of 4301 digits is refused where the string of its digits
    passes. *)
Example dumps_long_int_key :
  json_dumps true (PDict [(KInt (2 ^ 14285), PNone)]) = Raise ValueError
  /\ succeeds (json_dumps true
                 (PDict [(KStr (int_digits (2 ^ 14285)), PNone)])) = true.
Proof. split; vm_compute; reflexivity. Qed.

(** The [__main__] block prints 54.0 and the third message. *)
Example main_block :
  fst (example_run (init (lit "ExampleAPI")))
  = Ok (54%float, lit "ExampleAPI" ++ suffering_msg).
Proof. reflexivity. Qed.

Example score_20_is_mild :
  fst (calculate_misery score20_state) = Ok 20%float
  /\ fst (get_diagnosis score20_state) = Ok (default_api_name ++ mild_msg).
Proof. split; reflexivity. Qed.

Example score_80_is_critical :
  fst (calculate_misery score80_state) = Ok 80%float
  /\ fst (get_diagnosis score80_state)
     = Ok (default_api_name ++ critical_msg).
Proof. split; reflexivity. Qed.

(** * The claims *)

(** C1: on a tracker whose payloads are all serializable,
    [calculate_misery] returns a float [v] with [0.0 <= v <= 100.0]. *)
Theorem misery_in_range {py : interpreter} self
    (Hser : Forall (fun r => serializable (data r)) (responses self)) :
  exists v,
    fst (calculate_misery self) = Ok v
    /\ (0 <=? v)%float = true /\ (v <=? 100)%float = true.
Proof.
  destruct (misery_points_returns self Hser) as (z & Hz).
  exists (float_of_Z z). split.
  - rewrite calculate_misery_unfold. cbn [fst]. now rewrite Hz.
  - apply misery_points_bounds in Hz as [Hz _].
    apply (float_of_Z_compare z Hz).
Qed.

Lemma misery_in_range_witness :
  exists v,
    fst (calculate_misery example_state) = Ok v
    /\ (0 <=? v)%float = true /\ (v <=? 100)%float = true.
Proof.
  apply (misery_in_range (py := python_defaults)).
  repeat constructor.
Defined.

(** C2: with two responses or more, the inconsistency term is 0 when the
    canonical serializations ([sort_keys=True]) of the last two payloads
    are equal and 40 when they differ; two payloads that differ only in the
    insertion order of their keys have equal canonical serializations; with
    fewer than two responses the term is 0. *)
Theorem inconsistency_term {py : interpreter} self older ra rb sa sb
    (Hresp : responses self = older ++ [ra; rb])
    (Ha : json_dumps true (data ra) = Ok sa)
    (Hb : json_dumps true (data rb) = Ok sb) :
  (sa = sb -> inconsistency_penalty (responses self) = Ok 0)
  /\ (sa <> sb -> inconsistency_penalty (responses self) = Ok 40)
  /\ (key_reorder (data ra) (data rb) ->
      distinct_keys (data ra) = true -> sa = sb)
  /\ (forall other : APIMiseryIndex,
        (List.length (responses other) < 2)%nat ->
        inconsistency_penalty (responses other) = Ok 0).
Proof.
  rewrite Hresp, inconsistency_last_two, Ha, Hb.
  repeat split.
  - intros E. destruct (pystr_eq_dec sa sb); [reflexivity|contradiction].
  - intros E. destruct (pystr_eq_dec sa sb); [contradiction|reflexivity].
  - intros Hr Hd. apply Ok_inj. rewrite <- Ha, <- Hb.
    now apply encode_key_reorder.
  - intros other. apply inconsistency_short.
Qed.

Lemma inconsistency_term_witness :
  inconsistency_penalty (responses reorder_state) = Ok 0
  /\ json_dumps true reorder_a = json_dumps true reorder_b.
Proof.
  destruct ((inconsistency_term (py := python_defaults)) reorder_state []
              {| timestamp := lit "t1"; data := reorder_a |}
              {| timestamp := lit "t2"; data := reorder_b |}
              reorder_canon reorder_canon eq_refl eq_refl eq_refl)
    as (H0 & _ & _ & _).
  split; [apply H0|]; reflexivity.
Defined.

(** C3: with a response logged and [n] errors, the error term is
    [min(30, 10*n)]: 0, 10, 20, 30 for [n] = 0, 1, 2, 3 and 30 from there
    on; it is the amount that enters the score. *)
Theorem error_term {py : interpreter} self (Hne : responses self <> []) :
  let n := Z.of_nat (List.length (errors self)) in
  error_penalty (errors self) = Z.min 30 (10 * n)
  /\ (n = 0 -> error_penalty (errors self) = 0)
  /\ (n = 1 -> error_penalty (errors self) = 10)
  /\ (n = 2 -> error_penalty (errors self) = 20)
  /\ (3 <= n -> error_penalty (errors self) = 30)
  /\ (forall v, fst (calculate_misery self) = Ok v ->
      exists p1 p3,
        inconsistency_penalty (responses self) = Ok p1
        /\ complexity_penalty (responses self) = Ok p3
        /\ v = float_of_Z (Z.min 100 (p1 + Z.min 30 (10 * n) + p3))).
Proof.
  intros n. unfold error_penalty. fold n.
  repeat split; try lia.
  intros v Hv.
  apply calculate_misery_ok in Hv as (z & Hz & ->).
  destruct (misery_points_sum self z Hne Hz) as (p1 & p3 & H1 & H3 & ->).
  exists p1, p3. repeat split; try assumption.
  unfold error_penalty. fold n. do 2 f_equal. lia.
Qed.

Lemma error_term_witness :
  error_penalty (errors example_state) = 10
  /\ fst (calculate_misery example_state) = Ok 54%float.
Proof.
  assert (Hne : responses example_state <> []) by discriminate.
  destruct ((error_term (py := python_defaults)) example_state Hne)
    as (_ & _ & H1 & _).
  split; [apply H1|]; reflexivity.
Defined.

(** C4: with a response logged, the structural term is [min(30, 2*d)], [d]
    being the number of opening braces and brackets in the serialized form
    of the last payload (the same number in the compact form and in the
    form with the default separators, and the same as counted on the value);
    the responses before the last do not enter. *)
Theorem structural_term {py : interpreter} self older r s
    (Hresp : responses self = older ++ [r])
    (Hs : json_dumps_compact false (data r) = Ok s) :
  let d := str_count 123 s + str_count 91 s in
  complexity_penalty (responses self) = Ok (Z.min 30 (2 * d))
  /\ (exists sample,
        json_dumps false (data r) = Ok sample
        /\ str_count 123 sample + str_count 91 sample = d)
  /\ d = nesting_of (data r)
  /\ (forall earlier,
        complexity_penalty (earlier ++ [r])
        = complexity_penalty (responses self)).
Proof.
  intros d.
  assert (Hd : d = nesting_of (data r)).
  { apply (encode_braces (lit ",") (lit ":") false recursion_depth); auto. }
  assert (Hok : succeeds (json_dumps false (data r)) = true).
  { apply (encode_succeeds_mono (lit ",") (lit ":") false); [reflexivity|].
    unfold json_dumps_compact in Hs. now rewrite Hs. }
  destruct (json_dumps false (data r)) as [sample|] eqn:Hp; [|discriminate].
  assert (Hsample : braces sample = d).
  { rewrite Hd.
    apply (encode_braces (lit ", ") (lit ": ") false recursion_depth); auto. }
  rewrite Hresp, complexity_last, Hp.
  repeat split.
  - f_equal. rewrite Hsample. f_equal. lia.
  - exists sample. split; [reflexivity|exact Hsample].
  - exact Hd.
  - intros earlier. now rewrite complexity_last, Hp.
Qed.

Lemma structural_term_witness :
  complexity_penalty (responses example_state) = Ok 4.
Proof.
  destruct ((structural_term (py := python_defaults)) example_state
              [ {| timestamp := lit "2024-01-01T00:00:00.000001";
                   data := example_data_1 |} ]
              {| timestamp := lit "2024-01-01T00:00:00.000002";
                 data := example_data_2 |}
              example_compact eq_refl eq_refl) as (H & _).
  exact H.
Defined.

(** C5: on a tracker with no response, and so after any calls none of
    which is [log_response], [calculate_misery] returns 0.0, whatever
    errors were logged. *)
Theorem no_responses_zero {py : interpreter} :
  (forall self,
      responses self = [] -> fst (calculate_misery self) = Ok 0%float)
  /\ (forall name calls,
        logged_responses calls = [] ->
        fst ((_ <- perform_all calls ;; calculate_misery) (init name))
        = Ok 0%float).
Proof.
  split.
  - intros self H. rewrite calculate_misery_unfold. cbn [fst].
    unfold misery_points. now rewrite H.
  - intros name calls H.
    change (fst (match perform_all calls (init name) with
                 | (Ok _, self') => calculate_misery self'
                 | (Raise e, self') => (Raise e, self')
                 end) = Ok 0%float).
    rewrite perform_all_state, calculate_misery_unfold. cbn [fst].
    unfold misery_points. cbn [responses init]. now rewrite H.
Qed.

Lemma no_responses_zero_witness :
  fst ((_ <- perform_all [LogError (lit "t1") (PObj 3);
                          LogError (lit "t2") (PStr (lit "503"))] ;;
        calculate_misery) (init default_api_name))
  = Ok 0%float.
Proof.
  apply (proj2 (no_responses_zero (py := python_defaults))). reflexivity.
Defined.

(** C6: [get_diagnosis] returns the label followed by the message of the
    tier of the score [s]: below 20 the stable one, from 20 to below 50 the
    mild one, from 50 to below 80 the suffering one, from 80 the critical
    one; 20 is mild and 80 is critical. *)
Theorem diagnosis_tiers {py : interpreter} self s
    (Hs : fst (calculate_misery self) = Ok s) :
  ((s <? 20)%float = true ->
   fst (get_diagnosis self) = Ok (api_name self ++ stable_msg))
  /\ ((20 <=? s)%float = true -> (s <? 50)%float = true ->
      fst (get_diagnosis self) = Ok (api_name self ++ mild_msg))
  /\ ((50 <=? s)%float = true -> (s <? 80)%float = true ->
      fst (get_diagnosis self) = Ok (api_name self ++ suffering_msg))
  /\ ((80 <=? s)%float = true ->
      fst (get_diagnosis self) = Ok (api_name self ++ critical_msg))
  /\ (s = 20%float ->
      fst (get_diagnosis self) = Ok (api_name self ++ mild_msg))
  /\ (s = 80%float ->
      fst (get_diagnosis self) = Ok (api_name self ++ critical_msg)).
Proof.
  rewrite get_diagnosis_unfold, Hs. cbn [fst].
  apply calculate_misery_ok in Hs as (z & Hz & ->).
  apply misery_points_bounds in Hz as [Hz _].
  destruct (float_of_Z_compare z Hz)
    as (_ & (L20 & L50 & L80) & (G20 & G50 & G80) & _).
  repeat split.
  - intros H. now rewrite H.
  - rewrite G20, L20, L50. intros H1 H2. rewrite H2.
    destruct (Z.ltb_spec z 20); [|reflexivity].
    apply Z.leb_le in H1. lia.
  - rewrite G50, L20, L50, L80. intros H1 H2. rewrite H2.
    apply Z.leb_le in H1.
    destruct (Z.ltb_spec z 20); [lia|].
    destruct (Z.ltb_spec z 50); [lia|reflexivity].
  - rewrite G80, L20, L50, L80. intros H1.
    apply Z.leb_le in H1.
    destruct (Z.ltb_spec z 20); [lia|].
    destruct (Z.ltb_spec z 50); [lia|].
    destruct (Z.ltb_spec z 80); [lia|reflexivity].
  - intros ->. reflexivity.
  - intros ->. reflexivity.
Qed.

Lemma diagnosis_tiers_witness :
  fst (get_diagnosis score20_state) = Ok (default_api_name ++ mild_msg).
Proof.
  destruct ((diagnosis_tiers (py := python_defaults)) score20_state
              20%float eq_refl)
    as (_ & _ & _ & _ & H & _).
  apply H. reflexivity.
Defined.

(** C7: [log_response] and [log_error] return normally on every value;
    [calculate_misery] raises exactly when one of the [json.dumps] calls it
    makes fails, that is on one of the last two payloads in canonical form
    when there are two responses, or on the last payload in plain form; the
    exception is one of those [json.dumps] raises ([TypeError], [ValueError]
    or [RecursionError]), and what was passed to [log_error], never
    serialized, has no part in it. *)
Theorem serialization_errors {py : interpreter} :
  (forall now v self,
      fst (log_response now v self) = Ok tt
      /\ fst (log_error now v self) = Ok tt)
  /\ (forall self,
        (exists e, fst (calculate_misery self) = Raise e) <->
        ((exists older ra rb,
             responses self = older ++ [ra; rb]
             /\ (succeeds (json_dumps true (data ra)) = false
                 \/ succeeds (json_dumps true (data rb)) = false))
         \/ (exists older r,
                responses self = older ++ [r]
                /\ succeeds (json_dumps false (data r)) = false)))
  /\ (forall self e, fst (calculate_misery self) = Raise e -> encoder_exn e)
  /\ (forall self errs,
        succeeds (fst (calculate_misery
                         {| api_name := api_name self;
                            responses := responses self;
                            errors := errs |}))
        = succeeds (fst (calculate_misery self))).
Proof.
  assert (Hraise : forall self e,
             fst (calculate_misery self) = Raise e <->
             misery_points self = Raise e).
  { intros self e. rewrite calculate_misery_unfold. cbn [fst].
    destruct (misery_points self); split; congruence. }
  split; [intros; split; reflexivity|].
  split; [|split].
  - intros self.
    assert (Hex : (exists e, fst (calculate_misery self) = Raise e) <->
                  (exists e, misery_points self = Raise e)).
    { split; intros (e & He); exists e; now apply Hraise. }
    rewrite Hex. clear Hex.
    unfold misery_points, bind, result_monad.
    destruct (list_shape (responses self))
      as [E|[(a & E)|(older & a & b & E)]]; rewrite E.
    + simpl. split.
      * intros (e & He). discriminate.
      * intros [(o & ra & rb & H & _)|(o & r & H & _)];
          destruct o; discriminate.
    + change [a] with ([] ++ [a]). rewrite complexity_last.
      rewrite inconsistency_short by (simpl; lia). simpl.
      split.
      * intros (e & He). right. exists [], a. split; [reflexivity|].
        destruct (json_dumps false (data a)); [discriminate|reflexivity].
      * intros [(o & ra & rb & H & _)|(o & r & H & Hr)].
        -- apply (f_equal (@List.length _)) in H.
           rewrite length_app in H. simpl in H. lia.
        -- change [a] with ([] ++ [a]) in H.
           apply app_inj_tail in H as [_ ->].
           destruct (json_dumps false (data r)); [discriminate|eauto].
    + assert (Hne : is_empty (older ++ [a; b]) = false)
        by now destruct older.
      rewrite Hne, inconsistency_last_two.
      replace (older ++ [a; b]) with ((older ++ [a]) ++ [b])
        by now rewrite <- app_assoc.
      rewrite complexity_last.
      split.
      * intros (e & He).
        destruct (json_dumps true (data a)) eqn:Ha.
        2:{ left. exists older, a, b. rewrite Ha, <- app_assoc. auto. }
        destruct (json_dumps true (data b)) eqn:Hb.
        2:{ left. exists older, a, b. rewrite Hb, <- app_assoc. auto. }
        right. exists (older ++ [a]), b. split; [reflexivity|].
        destruct (json_dumps false (data b)); [discriminate|reflexivity].
      * intros [(o & ra & rb & H & Hr)|(o & r & H & Hr)].
        -- rewrite <- app_assoc in H. simpl in H.
           apply app_two_inj in H as (_ & -> & ->).
           destruct (json_dumps true (data ra)); [|eauto].
           destruct (json_dumps true (data rb)); [|eauto].
           destruct Hr; discriminate.
        -- apply app_inj_tail in H as [_ ->].
           destruct (json_dumps true (data a)); [|eauto].
           destruct (json_dumps true (data r)); [|eauto].
           destruct (json_dumps false (data r)); [discriminate|eauto].
  - intros self e He. apply Hraise in He. revert He.
    unfold misery_points, bind, result_monad.
    destruct (is_empty (responses self)); [discriminate|].
    destruct (list_shape (responses self))
      as [E|[(a & E)|(older & a & b & E)]]; rewrite E.
    + discriminate.
    + change [a] with ([] ++ [a]). rewrite complexity_last.
      rewrite inconsistency_short by (simpl; lia).
      destruct (json_dumps false (data a)) eqn:Ha; [discriminate|].
      intros H. injection H as <-. eapply encode_raise; eauto.
    + rewrite inconsistency_last_two.
      replace (older ++ [a; b]) with ((older ++ [a]) ++ [b])
        by now rewrite <- app_assoc.
      rewrite complexity_last.
      destruct (json_dumps true (data a)) eqn:Ha.
      2:{ intros H. injection H as <-. eapply encode_raise; eauto. }
      destruct (json_dumps true (data b)) eqn:Hb.
      2:{ intros H. injection H as <-. eapply encode_raise; eauto. }
      destruct (json_dumps false (data b)) eqn:Hp; [discriminate|].
      intros H. injection H as <-. eapply encode_raise; eauto.
  - intros self errs. rewrite !calculate_misery_unfold. cbn [fst].
    unfold misery_points, bind, result_monad. cbn [responses].
    destruct (is_empty (responses self)); [reflexivity|].
    destruct (inconsistency_penalty (responses self)); [|reflexivity].
    destruct (complexity_penalty (responses self)); reflexivity.
Qed.

Lemma serialization_errors_witness :
  fst (calculate_misery broken_state) = Raise TypeError.
Proof.
  destruct (serialization_errors (py := python_defaults))
    as (_ & Hiff & Htype & _).
  destruct (proj2 (Hiff broken_state)) as (e & He).
  - right. exists [], {| timestamp := lit "t1"; data := PObj 0 |}.
    split; reflexivity.
  - rewrite He. f_equal.
    pose proof (Htype broken_state e He) as Hk.
    vm_compute in He.
    destruct Hk as [Hk|[Hk|Hk]]; subst e;
      [reflexivity|discriminate|discriminate].
Defined.

(** C8: two trackers with the same payloads in their last two responses (the
    slice [responses[-2:]], be it of two items, one or none) and as many
    errors have the same outcome of [calculate_misery]; older responses,
    timestamps and error messages do not enter. *)
Theorem misery_depends_on_tail {py : interpreter} t1 t2
    (Hdata : map data (last_two_slice (responses t1))
             = map data (last_two_slice (responses t2)))
    (Herr : List.length (errors t1) = List.length (errors t2)) :
  fst (calculate_misery t1) = fst (calculate_misery t2).
Proof.
  rewrite !calculate_misery_unfold. cbn [fst].
  assert (Hp : misery_points t1 = misery_points t2); [|now rewrite Hp].
  unfold misery_points, bind, result_monad.
  unfold error_penalty. rewrite Herr.
  destruct (list_shape (responses t1))
    as [E1|[(a1 & E1)|(o1 & a1 & b1 & E1)]];
    destruct (list_shape (responses t2))
      as [E2|[(a2 & E2)|(o2 & a2 & b2 & E2)]];
    rewrite E1, E2 in *;
    rewrite ?last_two_slice_app in Hdata;
    try discriminate.
  - reflexivity.
  - injection Hdata as Ha.
    change [a1] with ([] ++ [a1]). change [a2] with ([] ++ [a2]).
    rewrite !complexity_last, Ha.
    rewrite !inconsistency_short by (simpl; lia). reflexivity.
  - injection Hdata as Ha Hb.
    assert (Hn1 : is_empty (o1 ++ [a1; b1]) = false) by now destruct o1.
    assert (Hn2 : is_empty (o2 ++ [a2; b2]) = false) by now destruct o2.
    rewrite Hn1, Hn2, !inconsistency_last_two.
    replace (o1 ++ [a1; b1]) with ((o1 ++ [a1]) ++ [b1])
      by now rewrite <- app_assoc.
    replace (o2 ++ [a2; b2]) with ((o2 ++ [a2]) ++ [b2])
      by now rewrite <- app_assoc.
    rewrite !complexity_last, Ha, Hb. reflexivity.
Qed.

Lemma misery_depends_on_tail_witness :
  fst (calculate_misery
         {| api_name := lit "Other";
            responses :=
              {| timestamp := lit "1999"; data := PObj 7 |}
              :: map (fun r => {| timestamp := lit "2000"; data := data r |})
                     (responses example_state);
            errors := [ {| error_timestamp := lit "2001";
                           message := PObj 8 |} ] |})
  = fst (calculate_misery example_state).
Proof.
  apply (misery_depends_on_tail (py := python_defaults)); reflexivity.
Defined.

(** C9: [log_response] appends one record to [responses] and [log_error]
    one to [errors], and leave the rest of the tracker as it was: the other
    list, the label, and every stored record at its index;
    [calculate_misery] and [get_diagnosis] leave the whole tracker as it
    was. *)
Theorem append_only {py : interpreter} now v self :
  (let self' := snd (log_response now v self) in
   responses self'
   = responses self ++ [ {| timestamp := now; data := v |} ]
   /\ errors self' = errors self
   /\ api_name self' = api_name self
   /\ (forall i r, nth_error (responses self) i = Some r ->
                   nth_error (responses self') i = Some r))
  /\ (let self' := snd (log_error now v self) in
      errors self'
      = errors self ++ [ {| error_timestamp := now; message := v |} ]
      /\ responses self' = responses self
      /\ api_name self' = api_name self
      /\ (forall i r, nth_error (errors self) i = Some r ->
                      nth_error (errors self') i = Some r))
  /\ snd (calculate_misery self) = self
  /\ snd (get_diagnosis self) = self.
Proof.
  repeat split; try reflexivity.
  - cbn. intros i r H. rewrite nth_error_app1; [exact H|].
    apply nth_error_Some. congruence.
  - cbn. intros i r H. rewrite nth_error_app1; [exact H|].
    apply nth_error_Some. congruence.
  - now rewrite calculate_misery_unfold.
  - now rewrite get_diagnosis_unfold.
Qed.

Lemma append_only_witness :
  nth_error (responses (snd (log_response (lit "t9") PNone example_state))) 0
  = nth_error (responses example_state) 0.
Proof.
  destruct ((append_only (py := python_defaults)) (lit "t9") PNone
              example_state)
    as ((_ & _ & _ & H) & _).
  apply H. reflexivity.
Defined.

(** C10: on serializable payloads [calculate_misery] returns the float of
    an even integer between 0 and 100; with a response logged it is the
    plain sum of the three terms, as integers and as the float additions of
    the code, which round nothing; the terms are at most 40, 30 and 30, so
    that the final [min(100.0, misery)] changes nothing. *)
Theorem misery_even_sum {py : interpreter} self
    (Hser : Forall (fun r => serializable (data r)) (responses self)) :
  exists v,
    fst (calculate_misery self) = Ok v
    /\ (exists k, v = float_of_Z (2 * k) /\ 0 <= k <= 50)
    /\ (responses self <> [] ->
        exists p1 p3,
          inconsistency_penalty (responses self) = Ok p1
          /\ complexity_penalty (responses self) = Ok p3
          /\ 0 <= p1 <= 40
          /\ 0 <= error_penalty (errors self) <= 30
          /\ 0 <= p3 <= 30
          /\ v = float_of_Z (p1 + error_penalty (errors self) + p3)
          /\ v = (0 + float_of_Z p1 + float_of_Z (error_penalty (errors self))
                 + float_of_Z p3)%float
          /\ float_min 100 v = v).
Proof.
  destruct (misery_points_returns self Hser) as (z & Hz).
  exists (float_of_Z z). split; [|split].
  - rewrite calculate_misery_unfold. cbn [fst]. now rewrite Hz.
  - destruct (misery_points_bounds self z Hz) as [Hr (k & ->)].
    exists k. split; [reflexivity|lia].
  - intros Hne.
    destruct (misery_points_sum self z Hne Hz) as (p1 & p3 & H1 & H3 & ->).
    exists p1, p3.
    pose proof (inconsistency_range _ _ H1) as R1.
    destruct (complexity_range _ _ H3) as [R3 _].
    destruct (error_penalty_range (errors self)) as [R2 _].
    assert (Hmin : Z.min 100 (p1 + error_penalty (errors self) + p3)
                   = p1 + error_penalty (errors self) + p3) by lia.
    rewrite Hmin.
    repeat split; try assumption; try lia.
    { symmetry. now apply misery_float_sum. }
    set (t := p1 + error_penalty (errors self) + p3) in *.
    assert (Ht : 0 <= t <= 100) by (unfold t; lia).
    apply (float_of_Z_compare t Ht).
Qed.

Lemma misery_even_sum_witness :
  exists v, fst (calculate_misery score80_state) = Ok v
            /\ exists k, v = float_of_Z (2 * k) /\ 0 <= k <= 50.
Proof.
  destruct ((misery_even_sum (py := python_defaults)) score80_state)
    as (v & Hv & Hk & _).
  - repeat constructor.
  - exists v. split; assumption.
Defined.


(** * Further properties of the tracker *)

(** ** Sequencing *)

Lemma bind_method_ok {A B} (c : method A) (k : A -> method B) self a self' :
  c self = (Ok a, self') -> (x <- c ;; k x) self = k a self'.
Proof. intros H. unfold bind, method_monad. now rewrite H. Qed.

Lemma log_response_state now d self :
  log_response now d self
  = (Ok tt,
     {| api_name := api_name self;
        responses := responses self ++ [ {| timestamp := now; data := d |} ];
        errors := errors self |}).
Proof. reflexivity. Qed.

Lemma log_error_state now m self :
  log_error now m self
  = (Ok tt,
     {| api_name := api_name self;
        responses := responses self;
        errors := errors self
                  ++ [ {| error_timestamp := now; message := m |} ] |}).
Proof. reflexivity. Qed.

(** ** More float facts on the range of the score *)

Lemma float_of_Z_more_nat (i : nat) :
  (i <= 100)%nat ->
  let z := Z.of_nat i in
  (2 <=? float_of_Z z)%float = (2 <=? z)
  /\ (float_of_Z z <=? 60)%float = (z <=? 60)
  /\ (z <= 90 -> float_of_Z (z + 10) = (float_of_Z z + 10)%float).
Proof.
  intros Hi.
  do 101 (destruct i as [|i];
          [vm_compute; repeat split; try reflexivity; intros _; reflexivity|]).
  lia.
Qed.

Lemma float_of_Z_more z :
  0 <= z <= 100 ->
  (2 <=? float_of_Z z)%float = (2 <=? z)
  /\ (float_of_Z z <=? 60)%float = (z <=? 60)
  /\ (z <= 90 -> float_of_Z (z + 10) = (float_of_Z z + 10)%float).
Proof.
  intros Hz. rewrite <- (Z2Nat.id z) by lia.
  apply float_of_Z_more_nat. lia.
Qed.

(** ** The score from the last two responses *)

Section ScoreFacts.
Context {py : interpreter}.

Lemma misery_points_one self r :
  responses self = [r] ->
  misery_points self
  = match json_dumps false (data r) with
    | Ok s => Ok (error_penalty (errors self) + Z.min 30 (braces s * 2))
    | Raise e => Raise e
    end.
Proof.
  intros E. unfold misery_points, bind, result_monad. rewrite E.
  change [r] with ([] ++ [r]). rewrite complexity_last.
  rewrite inconsistency_short by (simpl; lia). cbn [is_empty app].
  destruct (json_dumps false (data r)) as [s|]; [|reflexivity].
  f_equal. pose proof (braces_nonneg s).
  unfold error_penalty. lia.
Qed.

Lemma misery_points_two self older ra rb :
  responses self = older ++ [ra; rb] ->
  misery_points self
  = match json_dumps true (data ra) with
    | Ok sa =>
        match json_dumps true (data rb) with
        | Ok sb =>
            match json_dumps false (data rb) with
            | Ok s =>
                Ok ((if pystr_eq_dec sa sb then 0 else 40)
                    + error_penalty (errors self)
                    + Z.min 30 (braces s * 2))
            | Raise e => Raise e
            end
        | Raise e => Raise e
        end
    | Raise e => Raise e
    end.
Proof.
  intros E. unfold misery_points, bind, result_monad. rewrite E.
  assert (Hne : is_empty (older ++ [ra; rb]) = false) by now destruct older.
  rewrite Hne, inconsistency_last_two.
  replace (older ++ [ra; rb]) with ((older ++ [ra]) ++ [rb])
    by now rewrite <- app_assoc.
  rewrite complexity_last.
  destruct (json_dumps true (data ra)) as [sa|]; [|reflexivity].
  destruct (json_dumps true (data rb)) as [sb|]; [|reflexivity].
  destruct (json_dumps false (data rb)) as [s|]; [|reflexivity].
  f_equal. pose proof (braces_nonneg s).
  unfold error_penalty. destruct (pystr_eq_dec sa sb); lia.
Qed.

Lemma misery_points_exn self e : misery_points self = Raise e -> encoder_exn e.
Proof.
  destruct (list_shape (responses self))
    as [E|[(a & E)|(older & a & b & E)]].
  - unfold misery_points. rewrite E. discriminate.
  - rewrite (misery_points_one self a E).
    destruct (json_dumps false (data a)) eqn:Ha; [discriminate|].
    intros H. injection H as <-. eapply encode_raise; eauto.
  - rewrite (misery_points_two self older a b E).
    destruct (json_dumps true (data a)) eqn:Ha.
    2:{ intros H. injection H as <-. eapply encode_raise; eauto. }
    destruct (json_dumps true (data b)) eqn:Hb.
    2:{ intros H. injection H as <-. eapply encode_raise; eauto. }
    destruct (json_dumps false (data b)) eqn:Hp; [discriminate|].
    intros H. injection H as <-. eapply encode_raise; eauto.
Qed.

Lemma plain_fails_canonical_fails v :
  succeeds (json_dumps false v) = false ->
  succeeds (json_dumps true v) = false.
Proof.
  intros H. destruct (succeeds (json_dumps true v)) eqn:E; [|reflexivity].
  apply serializable_plain in E. congruence.
Qed.

Lemma canonical_raises v :
  succeeds (json_dumps false v) = false ->
  exists e, json_dumps true v = Raise e /\ encoder_exn e.
Proof.
  intros H. apply plain_fails_canonical_fails in H.
  destruct (json_dumps true v) as [s|e] eqn:E; [discriminate|].
  exists e. split; [reflexivity|]. eapply encode_raise; eauto.
Qed.

Lemma misery_points_last_fails self older r :
  responses self = older ++ [r] ->
  succeeds (json_dumps false (data r)) = false ->
  exists e, misery_points self = Raise e /\ encoder_exn e.
Proof.
  intros E Hf.
  assert (H : succeeds (misery_points self) = false).
  { destruct older as [|x older _] using rev_ind.
    - rewrite (misery_points_one self r E).
      now destruct (json_dumps false (data r)).
    - rewrite <- app_assoc in E. simpl in E.
      rewrite (misery_points_two self older x r E).
      destruct (json_dumps true (data x)); [|reflexivity].
      destruct (json_dumps true (data r)); [|reflexivity].
      now destruct (json_dumps false (data r)). }
  destruct (misery_points self) as [z|e] eqn:Hm; [discriminate|].
  exists e. split; [reflexivity|]. eapply misery_points_exn; eauto.
Qed.

Lemma calculate_misery_raise self e :
  misery_points self = Raise e -> fst (calculate_misery self) = Raise e.
Proof. intros H. rewrite calculate_misery_unfold. cbn [fst]. now rewrite H. Qed.

Lemma calculate_misery_points self z :
  misery_points self = Ok z ->
  fst (calculate_misery self) = Ok (float_of_Z z).
Proof. intros H. rewrite calculate_misery_unfold. cbn [fst]. now rewrite H. Qed.

Lemma get_diagnosis_raise self e :
  misery_points self = Raise e -> fst (get_diagnosis self) = Raise e.
Proof.
  intros H. rewrite get_diagnosis_unfold. cbn [fst].
  now rewrite (calculate_misery_raise _ _ H).
Qed.

Lemma nesting_floor v :
  (exists d, v = PDict d) \/ (exists l, v = PList l) -> 1 <= nesting_of v.
Proof.
  intros [(d & ->)|(l & ->)].
  - change (1 <= 1 + sumZ (fun kv => key_braces (fst kv)
                                     + nesting_of (snd kv)) d).
    assert (0 <= sumZ (fun kv => key_braces (fst kv)
                                 + nesting_of (snd kv)) d); [|lia].
    unfold sumZ. induction d as [|kv d IHd]; simpl; [lia|].
    pose proof (nesting_of_nonneg (snd kv)).
    assert (0 <= key_braces (fst kv))
      by (destruct (fst kv); simpl; try lia; apply braces_nonneg).
    lia.
  - change (1 <= 1 + sumZ nesting_of l).
    assert (0 <= sumZ nesting_of l); [|lia].
    unfold sumZ. induction l as [|x l IHl]; simpl; [lia|].
    pose proof (nesting_of_nonneg x). lia.
Qed.

Lemma complexity_reorder older1 older2 r1 r2 :
  key_reorder (data r1) (data r2) ->
  match complexity_penalty (older1 ++ [r1]),
        complexity_penalty (older2 ++ [r2]) with
  | Ok p1, Ok p2 => p1 = p2
  | Raise _, Raise _ => True
  | _, _ => False
  end.
Proof.
  intros Hr. rewrite !complexity_last.
  pose proof (plain_ok_reorder (lit ", ") (lit ": ") recursion_depth
                _ _ Hr) as Hok.
  pose proof (nesting_of_reorder _ _ Hr) as Hn.
  unfold json_dumps in *.
  destruct (encode (lit ", ") (lit ": ") false recursion_depth (data r1))
    as [s1|e1] eqn:H1,
      (encode (lit ", ") (lit ": ") false recursion_depth (data r2))
        as [s2|e2] eqn:H2.
  - rewrite (encode_braces (lit ", ") (lit ": ") false _ _ _
               eq_refl eq_refl H1).
    rewrite (encode_braces (lit ", ") (lit ": ") false _ _ _
               eq_refl eq_refl H2).
    now rewrite Hn.
  - simpl in Hok. destruct Hok as [Hok _]. discriminate (Hok eq_refl).
  - simpl in Hok. destruct Hok as [_ Hok]. discriminate (Hok eq_refl).
  - exact I.
Qed.

End ScoreFacts.

(** ** Payloads that every interpreter accepts *)

Lemma json_dumps_scalar (py1 py2 : interpreter) sk v :
  plain_scalar v = true ->
  json_dumps (py := py1) sk v = json_dumps (py := py2) sk v.
Proof.
  unfold json_dumps.
  destruct v as [|b|n|f|s|l|d| |id]; try discriminate; intros H;
    destruct (@recursion_depth py1), (@recursion_depth py2);
    try reflexivity; cbn [encode]; unfold int_repr;
    cbn [plain_scalar] in H; apply N.eqb_eq in H; rewrite H;
    repeat match goal with
           | |- context [(?a <? ?b)%N] => destruct (N.ltb_spec a b)
           end; cbn [andb]; try reflexivity; lia.
Qed.

Lemma misery_points_scalar (py1 py2 : interpreter) self :
  Forall (fun r => plain_scalar (data r) = true) (responses self) ->
  misery_points (py := py1) self = misery_points (py := py2) self.
Proof.
  intros HF.
  destruct (list_shape (responses self))
    as [E|[(a & E)|(older & a & b & E)]].
  - unfold misery_points. now rewrite E.
  - rewrite !(misery_points_one self a E).
    rewrite E in HF. inversion HF as [|? ? Ha _]; subst.
    now rewrite (json_dumps_scalar py1 py2 false _ Ha).
  - rewrite !(misery_points_two self older a b E).
    rewrite E in HF. apply Forall_app in HF as [_ HF].
    inversion HF as [|? ? Ha HF']; subst.
    inversion HF' as [|? ? Hb _]; subst.
    rewrite (json_dumps_scalar py1 py2 true _ Ha).
    rewrite (json_dumps_scalar py1 py2 true _ Hb).
    now rewrite (json_dumps_scalar py1 py2 false _ Hb).
Qed.

(** ** Errors and the score *)

(** X1: on a tracker with a response, one more logged error raises the
    score by exactly 10.0 while fewer than three errors were logged, and
    leaves it as it was from the third on. *)
Theorem error_adds_ten {py : interpreter} now msg self v
    (Hne : responses self <> [])
    (Hv : fst (calculate_misery self) = Ok v) :
  fst (calculate_misery (snd (log_error now msg self)))
  = Ok (if (List.length (errors self) <? 3)%nat then (v + 10)%float else v).
Proof.
  apply calculate_misery_ok in Hv as (z & Hz & ->).
  destruct (misery_points_sum self z Hne Hz) as (p1 & p3 & H1 & H3 & Hsum).
  pose proof (inconsistency_range _ _ H1) as R1.
  destruct (complexity_range _ _ H3) as [R3 _].
  rewrite log_error_state. cbn [snd].
  set (n := List.length (errors self)) in *.
  assert (Hpts :
    misery_points
      {| api_name := api_name self; responses := responses self;
         errors := errors self
                   ++ [ {| error_timestamp := now; message := msg |} ] |}
    = Ok (if (n <? 3)%nat then z + 10 else z)).
  { unfold misery_points, bind, result_monad. cbn [responses errors].
    destruct (responses self) eqn:E; [contradiction|]. cbn [is_empty].
    rewrite H1, H3. f_equal.
    unfold error_penalty in *. rewrite length_app. cbn [List.length].
    fold n in Hsum |- *.
    destruct (Nat.ltb_spec n 3); lia. }
  rewrite (calculate_misery_points _ _ Hpts).
  destruct (Nat.ltb_spec n 3) as [Hn|Hn]; [|reflexivity].
  f_equal. apply float_of_Z_more.
  - unfold error_penalty in Hsum. fold n in Hsum. lia.
  - unfold error_penalty in Hsum. fold n in Hsum. lia.
Qed.

Lemma error_adds_ten_witness :
  fst (calculate_misery
         (snd (log_error (lit "t4") (PStr (lit "502")) two_errors_state)))
  = Ok 34%float.
Proof.
  assert (Hne : responses two_errors_state <> []) by discriminate.
  exact ((error_adds_ten (py := python_defaults)) (lit "t4")
           (PStr (lit "502")) two_errors_state 24%float Hne eq_refl).
Defined.

(** X2: a tracker on which only errors were logged, however many, is
    diagnosed with the stable message. *)
Theorem only_errors_stable {py : interpreter} name calls
    (Hnone : logged_responses calls = []) :
  fst ((_ <- perform_all calls ;; get_diagnosis) (init name))
  = Ok (name ++ stable_msg).
Proof.
  rewrite (bind_method_ok _ _ _ _ _ (perform_all_state calls (init name))).
  rewrite get_diagnosis_unfold, calculate_misery_unfold. cbn [fst].
  unfold misery_points. cbn [responses init api_name]. now rewrite Hnone.
Qed.

Lemma only_errors_stable_witness :
  fst ((_ <- perform_all [LogError (lit "t1") (PStr (lit "503"));
                          LogError (lit "t2") (PStr (lit "503"));
                          LogError (lit "t3") (PStr (lit "503"));
                          LogError (lit "t4") (PStr (lit "503"))] ;;
        get_diagnosis) (init (lit "Down")))
  = Ok (lit "Down" ++ stable_msg).
Proof.
  apply (only_errors_stable (py := python_defaults)). reflexivity.
Defined.

(** X3: the critical message is returned only when the tracker holds two
    responses or more and the canonical forms of the last two differ. *)
Theorem critical_needs_inconsistency {py : interpreter} self
    (Hcrit : fst (get_diagnosis self) = Ok (api_name self ++ critical_msg)) :
  exists older ra rb sa sb,
    responses self = older ++ [ra; rb]
    /\ json_dumps true (data ra) = Ok sa
    /\ json_dumps true (data rb) = Ok sb
    /\ sa <> sb.
Proof.
  rewrite get_diagnosis_unfold in Hcrit. cbn [fst] in Hcrit.
  destruct (fst (calculate_misery self)) as [v|] eqn:Hv; [|discriminate].
  apply calculate_misery_ok in Hv as (z & Hz & ->).
  destruct (misery_points_bounds self z Hz) as [Hr _].
  destruct (float_of_Z_compare z Hr) as (_ & (L20 & L50 & L80) & _).
  rewrite L20, L50, L80 in Hcrit.
  assert (H80 : 80 <= z).
  { destruct (Z.ltb_spec z 20);
      [apply Ok_inj, app_inv_head in Hcrit; discriminate|].
    destruct (Z.ltb_spec z 50);
      [apply Ok_inj, app_inv_head in Hcrit; discriminate|].
    destruct (Z.ltb_spec z 80);
      [apply Ok_inj, app_inv_head in Hcrit; discriminate|].
    assumption. }
  destruct (list_shape (responses self))
    as [E|[(a & E)|(older & a & b & E)]].
  - unfold misery_points in Hz. rewrite E in Hz. apply Ok_inj in Hz. lia.
  - rewrite (misery_points_one self a E) in Hz.
    destruct (json_dumps false (data a)); [|discriminate].
    apply Ok_inj in Hz.
    destruct (error_penalty_range (errors self)) as [R2 _]. lia.
  - rewrite (misery_points_two self older a b E) in Hz.
    destruct (json_dumps true (data a)) as [sa|] eqn:Ha; [|discriminate].
    destruct (json_dumps true (data b)) as [sb|] eqn:Hb; [|discriminate].
    destruct (json_dumps false (data b)); [|discriminate].
    apply Ok_inj in Hz.
    destruct (error_penalty_range (errors self)) as [R2 _].
    exists older, a, b, sa, sb. repeat split; try assumption.
    destruct (pystr_eq_dec sa sb); [lia|assumption].
Qed.

Lemma critical_needs_inconsistency_witness :
  exists older ra rb sa sb,
    responses score80_state = older ++ [ra; rb]
    /\ json_dumps true (data ra) = Ok sa
    /\ json_dumps true (data rb) = Ok sb
    /\ sa <> sb.
Proof.
  apply (critical_needs_inconsistency (py := python_defaults)). reflexivity.
Defined.

(** X4: with fewer than two responses the score is at most 60.0. *)
Theorem single_response_cap {py : interpreter} self v
    (Hlen : (List.length (responses self) < 2)%nat)
    (Hv : fst (calculate_misery self) = Ok v) :
  (v <=? 60)%float = true.
Proof.
  apply calculate_misery_ok in Hv as (z & Hz & ->).
  destruct (misery_points_bounds self z Hz) as [Hr _].
  destruct (float_of_Z_more z Hr) as (_ & -> & _).
  apply Z.leb_le.
  destruct (list_shape (responses self))
    as [E|[(a & E)|(older & a & b & E)]].
  - unfold misery_points in Hz. rewrite E in Hz. apply Ok_inj in Hz. lia.
  - rewrite (misery_points_one self a E) in Hz.
    destruct (json_dumps false (data a)); [|discriminate].
    apply Ok_inj in Hz.
    destruct (error_penalty_range (errors self)) as [R2 _]. lia.
  - rewrite E, length_app in Hlen. simpl in Hlen. lia.
Qed.

Lemma single_response_cap_witness :
  (List.length (responses score20_state) < 2)%nat
  /\ fst (calculate_misery score20_state) = Ok 20%float
  /\ (20 <=? 60)%float = true.
Proof.
  assert (Hlen : (List.length (responses score20_state) < 2)%nat)
    by (cbn; lia).
  split; [exact Hlen|]. split; [reflexivity|].
  exact ((single_response_cap (py := python_defaults)) score20_state
           20%float Hlen eq_refl).
Defined.

(** ** The structural term on containers *)

(** X5: when the last response is a dict, as the annotation of
    [log_response] has it, or a list, the score is at least 2.0: the 0.0
    of the docstring is out of reach. *)
Theorem container_floor {py : interpreter} self older r v
    (Hresp : responses self = older ++ [r])
    (Hcont : (exists d, data r = PDict d) \/ (exists l, data r = PList l))
    (Hv : fst (calculate_misery self) = Ok v) :
  (2 <=? v)%float = true.
Proof.
  apply calculate_misery_ok in Hv as (z & Hz & ->).
  destruct (misery_points_bounds self z Hz) as [Hr _].
  destruct (float_of_Z_more z Hr) as (-> & _).
  apply Z.leb_le.
  assert (Hne : responses self <> [])
    by (rewrite Hresp; now destruct older).
  destruct (misery_points_sum self z Hne Hz) as (p1 & p3 & H1 & H3 & ->).
  pose proof (inconsistency_range _ _ H1) as R1.
  destruct (error_penalty_range (errors self)) as [R2 _].
  rewrite Hresp, complexity_last in H3.
  destruct (json_dumps false (data r)) as [s|] eqn:Hs; [|discriminate].
  apply Ok_inj in H3.
  assert (Hb : braces s = nesting_of (data r))
    by (apply (encode_braces (lit ", ") (lit ": ") false recursion_depth);
        auto).
  pose proof (nesting_floor _ Hcont) as Hn.
  lia.
Qed.

Lemma container_floor_witness :
  fst (calculate_misery example_state) = Ok 54%float
  /\ (2 <=? 54)%float = true.
Proof.
  split; [reflexivity|].
  apply ((container_floor (py := python_defaults)) example_state
           [ {| timestamp := lit "2024-01-01T00:00:00.000001";
                data := example_data_1 |} ]
           {| timestamp := lit "2024-01-01T00:00:00.000002";
              data := example_data_2 |} 54%float).
  - reflexivity.
  - left. eexists. reflexivity.
  - reflexivity.
Defined.

(** ** Payloads that cannot be serialized *)

(** X6: once a payload that [json.dumps] refuses is the last response,
    [calculate_misery] and [get_diagnosis] raise, both the same exception of
    the encoder, and keep raising after any number of logged errors.  The
    exception is that of the first call of [json.dumps] that fails: on the
    plain form of the payload when it is the only response, else on the
    canonical form of the response before it or, when that one passes, on
    the canonical form of the payload. *)
Theorem unserializable_last_raises {py : interpreter} self now d calls
    (Hbad : succeeds (json_dumps false d) = false)
    (Hnone : logged_responses calls = []) :
  exists e,
    encoder_exn e
    /\ fst ((_ <- log_response now d ;; _ <- perform_all calls ;;
             calculate_misery) self) = Raise e
    /\ fst ((_ <- log_response now d ;; _ <- perform_all calls ;;
             get_diagnosis) self) = Raise e
    /\ (responses self = [] -> json_dumps false d = Raise e)
    /\ (forall older ra,
           responses self = older ++ [ra] ->
           match json_dumps true (data ra) with
           | Ok _ => json_dumps true d = Raise e
           | Raise e' => e' = e
           end).
Proof.
  rewrite !(bind_method_ok _ _ _ _ _ (log_response_state now d self)).
  rewrite !(bind_method_ok _ _ _ _ _ (perform_all_state calls _)).
  cbn [responses errors api_name]. rewrite Hnone, app_nil_r.
  match goal with
  | |- exists e, _ /\ fst (calculate_misery ?st) = _ /\ _ => set (t := st)
  end.
  destruct (misery_points_last_fails t (responses self)
              {| timestamp := now; data := d |} eq_refl Hbad)
    as (e & He & Hk).
  exists e. split; [exact Hk|].
  split; [now apply calculate_misery_raise|].
  split; [now apply get_diagnosis_raise|].
  split.
  - intros Hnil.
    rewrite (misery_points_one t {| timestamp := now; data := d |}) in He
      by (cbn [t responses]; now rewrite Hnil).
    cbn [data] in He.
    destruct (json_dumps false d); [discriminate|congruence].
  - intros older ra Hr.
    rewrite (misery_points_two t older ra {| timestamp := now; data := d |})
      in He by (cbn [t responses]; now rewrite Hr, <- app_assoc).
    cbn [data] in He.
    destruct (json_dumps true (data ra)); [|congruence].
    destruct (canonical_raises d Hbad) as (e' & Hd & _).
    rewrite Hd in He |- *. congruence.
Qed.

Lemma unserializable_last_raises_witness :
  fst ((_ <- log_response (lit "t1") int_then_object ;;
        _ <- perform_all [LogError (lit "t2") PNone] ;;
        calculate_misery) (init default_api_name)) = Raise ValueError.
Proof.
  assert (Hbad : succeeds (json_dumps false int_then_object) = false)
    by (vm_compute; reflexivity).
  destruct ((unserializable_last_raises (py := python_defaults))
              (init default_api_name) (lit "t1") int_then_object
              [LogError (lit "t2") PNone] Hbad eq_refl)
    as (e & _ & Hc & _ & Hone & _).
  assert (Hv : json_dumps false int_then_object = Raise ValueError)
    by (vm_compute; reflexivity).
  rewrite Hc. specialize (Hone eq_refl). congruence.
Defined.

(** X7: one serializable response logged after such a payload is not
    enough: the refused payload is still the first of the last two, and
    [calculate_misery] raises the exception of its canonical form. *)
Theorem one_response_does_not_recover {py : interpreter}
    self now0 d0 now1 d1
    (Hbad : succeeds (json_dumps false d0) = false) :
  exists e,
    json_dumps true d0 = Raise e
    /\ encoder_exn e
    /\ fst ((_ <- log_response now0 d0 ;; _ <- log_response now1 d1 ;;
             calculate_misery) self) = Raise e.
Proof.
  destruct (canonical_raises d0 Hbad) as (e & Hd & Hk).
  exists e. split; [exact Hd|]. split; [exact Hk|].
  rewrite (bind_method_ok _ _ _ _ _ (log_response_state now0 d0 self)).
  rewrite (bind_method_ok _ _ _ _ _ (log_response_state now1 d1 _)).
  cbn [responses errors api_name].
  apply calculate_misery_raise.
  match goal with
  | |- misery_points ?st = _ =>
      rewrite (misery_points_two st (responses self)
                 {| timestamp := now0; data := d0 |}
                 {| timestamp := now1; data := d1 |})
        by (cbn [responses]; now rewrite <- app_assoc)
  end.
  cbn [data]. now rewrite Hd.
Qed.

Lemma one_response_does_not_recover_witness :
  fst ((_ <- log_response (lit "t1") int_then_object ;;
        _ <- log_response (lit "t2") example_data_1 ;;
        calculate_misery) (init default_api_name)) = Raise ValueError.
Proof.
  assert (Hbad : succeeds (json_dumps false int_then_object) = false)
    by (vm_compute; reflexivity).
  destruct ((one_response_does_not_recover (py := python_defaults))
              (init default_api_name) (lit "t1") int_then_object
              (lit "t2") example_data_1 Hbad)
    as (e & Hd & _ & Hc).
  assert (Hv : json_dumps true int_then_object = Raise ValueError)
    by (vm_compute; reflexivity).
  rewrite Hc. congruence.
Defined.

(** X8: two serializable responses in a row bring any tracker back:
    whatever was logged before, [calculate_misery] returns a score. *)
Theorem two_responses_recover {py : interpreter} self now1 d1 now2 d2
    (H1 : serializable d1) (H2 : serializable d2) :
  exists v,
    fst ((_ <- log_response now1 d1 ;; _ <- log_response now2 d2 ;;
          calculate_misery) self) = Ok v.
Proof.
  rewrite (bind_method_ok _ _ _ _ _ (log_response_state now1 d1 self)).
  rewrite (bind_method_ok _ _ _ _ _ (log_response_state now2 d2 _)).
  cbn [responses errors api_name].
  pose proof (serializable_plain _ H2) as Hp.
  unfold serializable in H1, H2.
  match goal with
  | |- exists v, fst (calculate_misery ?st) = Ok v =>
      pose proof (misery_points_two st (responses self)
                    {| timestamp := now1; data := d1 |}
                    {| timestamp := now2; data := d2 |}) as Hm
  end.
  cbn [responses data] in Hm. rewrite <- app_assoc in Hm.
  specialize (Hm eq_refl).
  destruct (json_dumps true d1); [|discriminate].
  destruct (json_dumps true d2); [|discriminate].
  destruct (json_dumps false d2); [|discriminate].
  eexists. apply calculate_misery_points.
  rewrite <- app_assoc. exact Hm.
Qed.

Lemma two_responses_recover_witness :
  exists v,
    fst ((_ <- log_response (lit "t2") example_data_1 ;;
          _ <- log_response (lit "t3") example_data_2 ;;
          calculate_misery) broken_state) = Ok v.
Proof.
  apply (two_responses_recover (py := python_defaults)); reflexivity.
Defined.

(** ** What the comparison of the last two responses sees *)

(** X9: after the same serializable payload is logged twice in a row, the
    first term is 0 and the score is the error term plus the structural
    term of that payload. *)
Theorem repeated_response_score {py : interpreter} self now1 now2 d
    (Hd : serializable d) :
  fst ((_ <- log_response now1 d ;; _ <- log_response now2 d ;;
        calculate_misery) self)
  = Ok (float_of_Z (Z.min 30 (10 * Z.of_nat (List.length (errors self)))
                    + Z.min 30 (2 * nesting_of d))).
Proof.
  rewrite (bind_method_ok _ _ _ _ _ (log_response_state now1 d self)).
  rewrite (bind_method_ok _ _ _ _ _ (log_response_state now2 d _)).
  cbn [responses errors api_name].
  apply calculate_misery_points.
  match goal with
  | |- misery_points ?st = _ =>
      rewrite (misery_points_two st (responses self)
                 {| timestamp := now1; data := d |}
                 {| timestamp := now2; data := d |})
        by (cbn [responses]; now rewrite <- app_assoc)
  end.
  cbn [data errors].
  pose proof (serializable_plain _ Hd) as Hp.
  unfold serializable in Hd.
  destruct (json_dumps true d) as [sc|]; [|discriminate].
  destruct (json_dumps false d) as [s|] eqn:Hs; [|discriminate].
  destruct (pystr_eq_dec sc sc); [|contradiction].
  f_equal.
  rewrite (encode_braces (lit ", ") (lit ": ") false recursion_depth d s)
    by auto.
  unfold error_penalty. lia.
Qed.

Lemma repeated_response_score_witness :
  fst ((_ <- log_response (lit "t4") example_data_1 ;;
        _ <- log_response (lit "t5") example_data_1 ;;
        calculate_misery) example_state)
  = Ok 14%float.
Proof.
  apply ((repeated_response_score (py := python_defaults)) example_state
           (lit "t4") (lit "t5") example_data_1).
  reflexivity.
Defined.

(** X10: an [int] key and the [str] of its decimal digits are the same to
    the comparison: logged one after the other, two one-item dicts that
    differ in this only get no inconsistency penalty, the first of them
    being serializable. *)
Theorem int_key_as_str_key {py : interpreter} self now1 now2 n v
    (Hv : serializable (PDict [(KInt n, v)])) :
  PDict [(KInt n, v)] <> PDict [(KStr (int_digits n), v)]
  /\ inconsistency_penalty
       (responses
          (snd ((_ <- log_response now1 (PDict [(KInt n, v)]) ;;
                 log_response now2 (PDict [(KStr (int_digits n), v)])) self)))
     = Ok 0.
Proof.
  split; [discriminate|].
  rewrite (bind_method_ok _ _ _ _ _ (log_response_state now1 _ self)).
  rewrite log_response_state. cbn [snd responses].
  rewrite <- app_assoc. cbn [app].
  rewrite inconsistency_last_two. cbn [data].
  unfold serializable in Hv.
  assert (E : json_dumps true (PDict [(KInt n, v)])
              = json_dumps true (PDict [(KStr (int_digits n), v)])).
  { unfold json_dumps in *.
    destruct recursion_depth as [|m]; [discriminate|].
    rewrite !encode_dict in *. cbn [sorted insert_item] in *.
    unfold bind, result_monad in *. cbn [mapM] in *.
    unfold bind, result_monad in *.
    rewrite !encode_item_unfold in *. cbn [fst snd key_text] in *.
    destruct (int_repr n) as [t|] eqn:Ht; [|discriminate].
    now rewrite (int_repr_ok _ _ Ht). }
  rewrite <- E.
  destruct (json_dumps true (PDict [(KInt n, v)])) as [s|]; [|discriminate].
  destruct (pystr_eq_dec s s); [reflexivity|contradiction].
Qed.

Lemma int_key_as_str_key_witness :
  inconsistency_penalty
    (responses
       (snd ((_ <- log_response (lit "t1") (PDict [(KInt 7, PNone)]) ;;
              log_response (lit "t2") (PDict [(KStr (lit "7"), PNone)]))
               (init default_api_name))))
  = Ok 0.
Proof.
  apply ((int_key_as_str_key (py := python_defaults))
           (init default_api_name) (lit "t1") (lit "t2") 7 PNone).
  reflexivity.
Defined.

(** ** The scores that occur *)

(** X11: every even score from 0.0 to 100.0 occurs: for each [k] up to 50
    some calls of the two logging methods lead to the score [2 * k]. *)
Theorem every_even_score_reached {py : interpreter} name k
    (Hk : 0 <= k <= 50) :
  fst ((_ <- perform_all (calls_scoring (Z.to_nat k)) ;; calculate_misery)
         (init name))
  = Ok (float_of_Z (2 * k)).
Proof.
  rewrite (bind_method_ok _ _ _ _ _ (perform_all_state _ (init name))).
  rewrite calculate_misery_unfold. cbn [fst].
  replace (2 * k) with (2 * Z.of_nat (Z.to_nat k)) by lia.
  assert (Hn : (Z.to_nat k <= 50)%nat) by lia.
  generalize dependent (Z.to_nat k). clear k Hk. intros n Hn.
  rewrite (misery_points_scalar py python_defaults).
  - do 51 (destruct n as [|n]; [vm_compute; reflexivity|]).
    lia.
  - cbn [responses init app].
    do 51 (destruct n as [|n]; [vm_compute; repeat constructor|]).
    lia.
Qed.

Lemma every_even_score_reached_witness :
  fst ((_ <- perform_all (calls_scoring 33) ;; calculate_misery)
         (init default_api_name))
  = Ok 66%float.
Proof.
  apply ((every_even_score_reached (py := python_defaults))
           default_api_name 33).
  lia.
Defined.

(** ** The order of keys and the whole score *)

(** X12: for payloads whose dict keys are all strings, pairwise distinct
    in each dict, the insertion order of the keys decides neither whether
    [calculate_misery] returns nor the score: two trackers whose last two
    payloads agree up to that order, with as many errors, both return the
    same score or both raise.  With two responses or more, or none, the
    outcomes are the same, exception included; with one response the plain
    form alone is computed, and the two exceptions may differ. *)
Theorem score_ignores_key_order {py : interpreter} t1 t2
    (Hdata : Forall2 key_reorder
               (map data (last_two_slice (responses t1)))
               (map data (last_two_slice (responses t2))))
    (Hstr : Forall (fun v => str_keys v = true)
              (map data (last_two_slice (responses t1))))
    (Hdist : Forall (fun v => distinct_keys v = true)
               (map data (last_two_slice (responses t1))))
    (Herr : List.length (errors t1) = List.length (errors t2)) :
  match fst (calculate_misery t1), fst (calculate_misery t2) with
  | Ok v1, Ok v2 => v1 = v2
  | Raise _, Raise _ => True
  | _, _ => False
  end
  /\ (List.length (responses t1) <> 1%nat ->
      fst (calculate_misery t1) = fst (calculate_misery t2)).
Proof.
  rewrite !calculate_misery_unfold. cbn [fst].
  assert (Hp : match misery_points t1, misery_points t2 with
               | Ok z1, Ok z2 => z1 = z2
               | Raise _, Raise _ => True
               | _, _ => False
               end
               /\ (List.length (responses t1) <> 1%nat ->
                   misery_points t1 = misery_points t2)).
  2:{ destruct Hp as [Hm He]. split.
      - destruct (misery_points t1), (misery_points t2);
          try exact Hm. now rewrite Hm.
      - intros Hl. now rewrite (He Hl). }
  clear Hstr.
  destruct (list_shape (responses t1))
    as [E1|[(a1 & E1)|(o1 & a1 & b1 & E1)]];
    destruct (list_shape (responses t2))
      as [E2|[(a2 & E2)|(o2 & a2 & b2 & E2)]];
    rewrite E1, E2 in *;
    try rewrite !last_two_slice_app in Hdata;
    try rewrite !last_two_slice_app in Hdist;
    try (inversion Hdata; fail);
    try (inversion Hdata as [|? ? ? ? _ Hd']; inversion Hd'; fail).
  - unfold misery_points. rewrite E1, E2. cbn [is_empty]. auto.
  - split; [|intros Hl; now contradiction Hl].
    inversion Hdata as [|? ? ? ? Ha _]; subst.
    pose proof (complexity_reorder [] [] a1 a2 Ha) as Hc.
    rewrite !complexity_last in Hc.
    rewrite (misery_points_one t1 a1 E1), (misery_points_one t2 a2 E2).
    unfold error_penalty. rewrite Herr.
    destruct (json_dumps false (data a1)), (json_dumps false (data a2));
      try exact Hc.
    cbv beta iota in Hc |- *. lia.
  - inversion Hdata as [|? ? ? ? Ha Hd']; subst.
    inversion Hd' as [|? ? ? ? Hb _]; subst.
    inversion Hdist as [|? ? Da Hdist']; subst.
    inversion Hdist' as [|? ? Db _]; subst.
    assert (Heq : misery_points t1 = misery_points t2).
    { rewrite (misery_points_two t1 o1 a1 b1 E1).
      rewrite (misery_points_two t2 o2 a2 b2 E2).
      unfold error_penalty. rewrite Herr.
      pose proof (encode_key_reorder (lit ", ") (lit ": ") recursion_depth
                    _ _ Ha Da) as Ea.
      pose proof (encode_key_reorder (lit ", ") (lit ": ") recursion_depth
                    _ _ Hb Db) as Eb.
      fold (json_dumps true (data a1)) in Ea.
      fold (json_dumps true (data a2)) in Ea.
      fold (json_dumps true (data b1)) in Eb.
      fold (json_dumps true (data b2)) in Eb.
      rewrite <- Ea, <- Eb.
      destruct (json_dumps true (data a1)) as [sa|]; [|reflexivity].
      destruct (json_dumps true (data b1)) as [sb|] eqn:Hsb; [|reflexivity].
      assert (Hok : succeeds (json_dumps false (data b1)) = true)
        by (apply serializable_plain; unfold serializable; now rewrite Hsb).
      pose proof (complexity_reorder [] [] b1 b2 Hb) as Hc.
      rewrite !complexity_last in Hc.
      destruct (json_dumps false (data b1)); [|discriminate].
      destruct (json_dumps false (data b2)); [|contradiction].
      cbv beta iota in Hc. f_equal. lia. }
    split; [|intros _; exact Heq].
    rewrite Heq. destruct (misery_points t2); auto.
Qed.

Lemma score_ignores_key_order_witness :
  fst (calculate_misery
         {| api_name := lit "Other";
            responses :=
              [ {| timestamp := lit "t1"; data := example_data_1_reordered |};
                {| timestamp := lit "t2"; data := example_data_2 |} ];
            errors := errors example_state |})
  = fst (calculate_misery example_state).
Proof.
  symmetry.
  apply (score_ignores_key_order (py := python_defaults)).
  - constructor; [|constructor; [apply kr_same|constructor]].
    apply kr_dict
      with (d' := [(KStr (lit "data"), PDict [(KStr (lit "id"), PInt 1)]);
                   (KStr (lit "status"), PStr (lit "ok"))]).
    + apply perm_swap.
    + repeat constructor.
  - repeat constructor.
  - repeat constructor.
  - reflexivity.
  - discriminate.
Defined.

(** ** What [get_diagnosis] returns *)

(** X13: [get_diagnosis] returns the label followed by one of the four
    messages, or raises; it raises exactly when [calculate_misery] does,
    the same exception, which is one of the three of the encoder. *)
Theorem diagnosis_outcomes {py : interpreter} self :
  ((exists m,
       In m [stable_msg; mild_msg; suffering_msg; critical_msg]
       /\ fst (get_diagnosis self) = Ok (api_name self ++ m))
   \/ (exists e,
          encoder_exn e
          /\ fst (calculate_misery self) = Raise e
          /\ fst (get_diagnosis self) = Raise e))
  /\ (succeeds (fst (get_diagnosis self))
      = succeeds (fst (calculate_misery self))).
Proof.
  rewrite get_diagnosis_unfold, calculate_misery_unfold. cbn [fst].
  destruct (misery_points self) as [z|e] eqn:Hz.
  - split; [left|reflexivity].
    destruct (float_of_Z z <? 20)%float;
      [exists stable_msg; simpl; auto|].
    destruct (float_of_Z z <? 50)%float;
      [exists mild_msg; simpl; auto|].
    destruct (float_of_Z z <? 80)%float;
      [exists suffering_msg; simpl; auto 6|].
    exists critical_msg. simpl. auto 6.
  - split; [right|reflexivity].
    exists e. split; [|split; reflexivity].
    eapply misery_points_exn; eauto.
Qed.

(** ** Keys that do not compare *)


